(** * The micro:bit fiber scheduler (inc/MicroBitFiber.h)

    The header declares the data of the scheduler (the register block
    [Cortex_M0_TCB], the control block [Fiber], the flag masks and the
    tick period) and defines one function, [inInterruptContext].  The
    bodies of the other operations it declares are specified by the design
    document; their models below say so. *)

From Stdlib Require Import ZArith Lia Bool List.
From stdpp Require Import base tactics option list gmap fin_maps.

Local Open Scope Z_scope.

(** ** Machine integers *)

Module Word.

Definition wrap32 (x : Z) : Z := x mod 2 ^ 32.

(** The C cast [(int) x] of a 32-bit unsigned value. *)
Definition to_int32 (x : Z) : Z :=
  let y := wrap32 x in if y <? 2 ^ 31 then y else y - 2 ^ 32.

(** [~x] on a [uint32_t]. *)
Definition not32 (x : Z) : Z := wrap32 (Z.lnot x).

End Word.

(** ** Constants of the header *)

Definition FIBER_STACK_SIZE : Z := 64.
Definition FIBER_TICK_PERIOD_MS : Z := 6.
Definition CORTEX_M0_STACK_BASE : Z := 0x20004000 - 4.

Definition MICROBIT_FLAG_DATA_READ : Z := 0x01.

Definition MICROBIT_FIBER_FLAG_FOB : Z := 0x01.
Definition MICROBIT_FIBER_FLAG_PARENT : Z := 0x02.
Definition MICROBIT_FIBER_FLAG_CHILD : Z := 0x04.

(** ** The flag bitset of a fiber *)

Module Flags.

Inductive fiber_flag := FOB | PARENT | CHILD.

Definition mask (k : fiber_flag) : Z :=
  match k with
  | FOB => MICROBIT_FIBER_FLAG_FOB
  | PARENT => MICROBIT_FIBER_FLAG_PARENT
  | CHILD => MICROBIT_FIBER_FLAG_CHILD
  end.

(** Position of the bit of a flag. *)
Definition bit (k : fiber_flag) : Z :=
  match k with FOB => 0 | PARENT => 1 | CHILD => 2 end.

(** [flags & m], read as a C condition. *)
Definition has_flag (flags m : Z) : bool := negb (Z.land flags m =? 0).

(** [flags |= m]. *)
Definition set_flag (flags m : Z) : Z := Z.lor flags m.

(** [flags &= ~m], on a [uint32_t]. *)
Definition clear_flag (flags m : Z) : Z := Z.land flags (Word.not32 m).

End Flags.

(** ** Interrupt context query *)

(** [inInterruptContext], with the value read by [__get_IPSR()] as its
    argument; the C++ comparison yields [1] or [0] as an [int]. *)
Definition inInterruptContext (ipsr : Z) : Z :=
  if Z.land (Word.to_int32 ipsr) 0x003F >? 0 then 1 else 0.

(** ** Data model *)

(** A [Fiber *]; the null pointer is [None]. *)
Abbreviation fiber_ptr := nat.

(** Modelled from the spec: the queue heads are globals of the
    implementation file, which is not part of the sources.  The values a
    [Fiber **queue] back-pointer takes are the addresses of the heads of
    the "run queue", the "sleep queue" and the "wait queue". *)
Inductive queue_id := RunQueue | SleepQueue | WaitQueue.

Global Instance queue_id_eq_dec : EqDecision queue_id.
Proof. solve_decision. Defined.

Record Cortex_M0_TCB := mkTCB {
  R0 : Z; R1 : Z; R2 : Z; R3 : Z; R4 : Z; R5 : Z; R6 : Z; R7 : Z;
  R8 : Z; R9 : Z; R10 : Z; R11 : Z; R12 : Z; SP : Z; LR : Z }.

Record Fiber := mkFiber {
  stack_top : Z;
  stack_bottom : Z;
  tcb : Cortex_M0_TCB;
  context : Z;
  flags : Z;
  queue : option queue_id;
  next : option fiber_ptr;
  prev : option fiber_ptr }.

(** Modelled from the spec: the scheduler's data.  The header declares
    the globals [ticks] and [fiber_flags]; the heads of the three queues
    and the pointer to the running fiber are globals of the implementation
    file.  [fibers] holds the [Fiber] objects on the heap, by address. *)
Record scheduler := mkScheduler {
  fibers : gmap nat Fiber;
  runQueue : option fiber_ptr;
  sleepQueue : option fiber_ptr;
  waitQueue : option fiber_ptr;
  currentFiber : option fiber_ptr;
  ticks : Z;
  fiber_flags : Z }.

(** The register context with every register zero. *)
Definition zero_tcb : Cortex_M0_TCB := mkTCB 0 0 0 0 0 0 0 0 0 0 0 0 0 0 0.

(** Field assignments. *)

Definition set_stack (top bottom : Z) (f : Fiber) : Fiber :=
  mkFiber top bottom (tcb f) (context f) (flags f) (queue f) (next f) (prev f).
Definition set_tcb (t : Cortex_M0_TCB) (f : Fiber) : Fiber :=
  mkFiber (stack_top f) (stack_bottom f) t (context f) (flags f) (queue f) (next f) (prev f).
Definition set_context (c : Z) (f : Fiber) : Fiber :=
  mkFiber (stack_top f) (stack_bottom f) (tcb f) c (flags f) (queue f) (next f) (prev f).
Definition set_flags (v : Z) (f : Fiber) : Fiber :=
  mkFiber (stack_top f) (stack_bottom f) (tcb f) (context f) v (queue f) (next f) (prev f).
Definition set_next (n : option fiber_ptr) (f : Fiber) : Fiber :=
  mkFiber (stack_top f) (stack_bottom f) (tcb f) (context f) (flags f) (queue f) n (prev f).
Definition set_prev (p : option fiber_ptr) (f : Fiber) : Fiber :=
  mkFiber (stack_top f) (stack_bottom f) (tcb f) (context f) (flags f) (queue f) (next f) p.
Definition set_links (q : option queue_id) (n p : option fiber_ptr) (f : Fiber) : Fiber :=
  mkFiber (stack_top f) (stack_bottom f) (tcb f) (context f) (flags f) q n p.

Definition set_fibers (h : gmap nat Fiber) (s : scheduler) : scheduler :=
  mkScheduler h (runQueue s) (sleepQueue s) (waitQueue s)
    (currentFiber s) (ticks s) (fiber_flags s).
Definition set_current (c : option fiber_ptr) (s : scheduler) : scheduler :=
  mkScheduler (fibers s) (runQueue s) (sleepQueue s) (waitQueue s)
    c (ticks s) (fiber_flags s).
Definition set_ticks (t : Z) (s : scheduler) : scheduler :=
  mkScheduler (fibers s) (runQueue s) (sleepQueue s) (waitQueue s)
    (currentFiber s) t (fiber_flags s).

(** [*queue] and [*queue = v]. *)
Definition head (s : scheduler) (q : queue_id) : option fiber_ptr :=
  match q with
  | RunQueue => runQueue s
  | SleepQueue => sleepQueue s
  | WaitQueue => waitQueue s
  end.

Definition set_head (q : queue_id) (v : option fiber_ptr) (s : scheduler) : scheduler :=
  match q with
  | RunQueue =>
      mkScheduler (fibers s) v (sleepQueue s) (waitQueue s)
        (currentFiber s) (ticks s) (fiber_flags s)
  | SleepQueue =>
      mkScheduler (fibers s) (runQueue s) v (waitQueue s)
        (currentFiber s) (ticks s) (fiber_flags s)
  | WaitQueue =>
      mkScheduler (fibers s) (runQueue s) (sleepQueue s) v
        (currentFiber s) (ticks s) (fiber_flags s)
  end.

(** An assignment through a [Fiber *]. *)
Definition update (f : fiber_ptr) (g : Fiber -> Fiber) (s : scheduler) : scheduler :=
  set_fibers (alter g f (fibers s)) s.

(** ** Queue manager *)

(** Modelled from the spec: the body of [queue_fiber] is not in the header.
    "Inserts [f] at the head of the target intrusive list, sets [f]'s queue
    back-pointer": [f] gets the queue, the old head as its successor and no
    predecessor, the old head (if any) gets [f] as its predecessor, and the
    head of the queue becomes [f]. *)
Definition queue_fiber (f : fiber_ptr) (q : queue_id) (s : scheduler) : scheduler :=
  let old := head s q in
  let s1 := update f (set_links (Some q) old None) s in
  let s2 := match old with
            | Some h => update h (set_prev (Some f)) s1
            | None => s1
            end in
  set_head q (Some f) s2.

(** Modelled from the spec: the body of [dequeue_fiber] is not in the
    header.  "Removes [f] from whatever queue its back-pointer names,
    patching neighbor links; no search required": the predecessor (or, for
    the first fiber, the head of the queue named by the back-pointer) is
    linked to the successor, the successor back to the predecessor, and the
    three links of [f] are cleared.  A fiber whose back-pointer names no
    queue is left as it is. *)
Definition dequeue_fiber (f : fiber_ptr) (s : scheduler) : scheduler :=
  match fibers s !! f with
  | None => s
  | Some fb =>
      match queue fb with
      | None => s
      | Some q =>
          let s1 := match prev fb with
                    | Some p => update p (set_next (next fb)) s
                    | None => set_head q (next fb) s
                    end in
          let s2 := match next fb with
                    | Some n => update n (set_prev (prev fb)) s1
                    | None => s1
                    end in
          update f (set_links None None None) s2
      end
  end.

(** *** Membership and the shape of the queues *)

(** The fibers met by following [next] from a pointer, at most [fuel] of
    them. *)
Fixpoint walk (fuel : nat) (h : gmap nat Fiber) (c : option fiber_ptr) : list fiber_ptr :=
  match fuel, c with
  | S n, Some x =>
      x :: match h !! x with
           | Some fb => walk n h (next fb)
           | None => []
           end
  | _, _ => []
  end.

(** The members of a queue: what a traversal from its head meets.  No
    traversal of distinct fibers is longer than the number of fibers. *)
Definition queue_members (s : scheduler) (q : queue_id) : list fiber_ptr :=
  walk (size (fibers s)) (fibers s) (head s q).

Definition on_queue (s : scheduler) (f : fiber_ptr) (q : queue_id) : Prop :=
  f ∈ queue_members s q.

(** Queue exclusivity, as the specification states it: a fiber is a member
    of at most one queue, and its back-pointer names the queue it is a
    member of, and no queue when it is a member of none. *)
Definition queue_exclusive (s : scheduler) : Prop :=
  forall f,
    (forall q1 q2, on_queue s f q1 -> on_queue s f q2 -> q1 = q2) /\
    (forall q, on_queue s f q ->
       exists fb, fibers s !! f = Some fb /\ queue fb = Some q) /\
    (forall fb q, fibers s !! f = Some fb -> queue fb = Some q -> on_queue s f q).

(** A doubly-linked segment of queue [q]: the fibers [l] in order, entered
    at [c] with predecessor [p], left towards [e]. *)
Fixpoint dseg (h : gmap nat Fiber) (q : queue_id)
    (p c : option fiber_ptr) (l : list fiber_ptr) (e : option fiber_ptr) : Prop :=
  match l with
  | [] => c = e
  | x :: l' =>
      c = Some x /\
      exists fb, h !! x = Some fb /\ queue fb = Some q /\ prev fb = p /\
                 dseg h q (Some x) (next fb) l' e
  end.

(** The predecessor pointer seen after a segment. *)
Definition last_ptr (p : option fiber_ptr) (l : list fiber_ptr) : option fiber_ptr :=
  match last l with Some y => Some y | None => p end.

(** The queues of [s] are the lists [L]: each is a well-linked list from
    its head, without repetition, and holds every fiber whose back-pointer
    names it. *)
Record queues_are (s : scheduler) (L : queue_id -> list fiber_ptr) : Prop := {
  qa_seg : forall q, dseg (fibers s) q None (head s q) (L q) None;
  qa_nodup : forall q, NoDup (L q);
  qa_back : forall f fb q, fibers s !! f = Some fb -> queue fb = Some q -> f ∈ L q }.

(** The invariant of the queue manager. *)
Definition queue_inv (s : scheduler) : Prop := exists L, queues_are s L.

(** A fiber that exists and is on no queue. *)
Definition unqueued (s : scheduler) (f : fiber_ptr) : Prop :=
  exists fb, fibers s !! f = Some fb /\ queue fb = None.

(** The lists [L] with the list of queue [q] replaced. *)
Definition set_list (q : queue_id) (l : list fiber_ptr)
    (L : queue_id -> list fiber_ptr) : queue_id -> list fiber_ptr :=
  fun q' => if decide (q' = q) then l else L q'.

(** What a fiber holds besides its queue links. *)
Definition fiber_data (fb : Fiber) : Z * Z * Cortex_M0_TCB * Z * Z :=
  (stack_top fb, stack_bottom fb, tcb fb, context fb, flags fb).

(** [s'] differs from [s] in queue heads and queue links only. *)
Definition same_data (s s' : scheduler) : Prop :=
  (forall x, fiber_data <$> fibers s' !! x = fiber_data <$> fibers s !! x) /\
  currentFiber s' = currentFiber s /\
  ticks s' = ticks s /\
  fiber_flags s' = fiber_flags s.

(** The queue links of a fiber. *)
Definition fiber_links (fb : Fiber) : option queue_id * option fiber_ptr * option fiber_ptr :=
  (queue fb, next fb, prev fb).

(** [s'] has the queue heads and the queue links of [s]. *)
Definition same_links (s s' : scheduler) : Prop :=
  (forall x, fiber_links <$> fibers s' !! x = fiber_links <$> fibers s !! x) /\
  (forall q, head s' q = head s q).

(** The [context] word of a fiber, when the fiber exists. *)
Definition context_of (s : scheduler) (f : fiber_ptr) : option Z :=
  context <$> fibers s !! f.

(** ** Sleep and wait subsystem *)

(** Modelled from the spec: the event record of the message bus, whose
    header MicroBitMessageBus.h is not part of the sources.  "One event
    record (an identifier/value pair)"; both are [uint16_t], as the
    parameters of [fiber_wait_for_event] are. *)
Record MicroBitEvent := mkEvent { source : Z; value : Z }.

Definition wrap16 (x : Z) : Z := x mod 2 ^ 16.

(** Modelled from the spec: how [fiber_wait_for_event] "registers the
    calling fiber's interest in a specific (id, value) event pair" is not
    in the header.  The model keeps the pair in the fiber's 32-bit
    [context] word, the id in the low half and the value in the high
    half, so that both 16-bit fields are kept whole. *)
Definition event_key (id v : Z) : Z := Z.lor (wrap16 id) (Z.shiftl (wrap16 v) 16).
Definition key_id (c : Z) : Z := Z.land c 0xFFFF.
Definition key_value (c : Z) : Z := Z.land (Z.shiftr c 16) 0xFFFF.

(** Modelled from the spec: the wake-up scans of [scheduler_tick] and
    [scheduler_event] are not in the header.  "Scans the queue; any fiber
    [that qualifies] is dequeued and moved to the run queue": the loop
    follows [next] from the head of the queue, reading the link of a fiber
    before the fiber is moved.  [fuel] bounds the loop by the number of
    fibers. *)
Fixpoint wake_scan (fuel : nat) (wake : Z -> bool)
    (c : option fiber_ptr) (s : scheduler) : scheduler :=
  match fuel, c with
  | S n, Some f =>
      match fibers s !! f with
      | None => s
      | Some fb =>
          let t := next fb in
          let s' := if wake (context fb)
                    then queue_fiber f RunQueue (dequeue_fiber f s)
                    else s in
          wake_scan n wake t s'
      end
  | _, _ => s
  end.

(** Whether a scan with test [wake] wakes fiber [x] of [s]. *)
Definition wakes (wake : Z -> bool) (s : scheduler) (x : fiber_ptr) : bool :=
  match context_of s x with Some c => wake c | None => false end.

(** Modelled from the spec: the first half of [fiber_sleep], up to the
    call of the scheduler.  "Computes an absolute wake time (current tick
    + t), inserts the calling fiber into a sleep queue": the sum is taken
    in the 32 bits of [ticks] and kept in the fiber's [context] word; the
    fiber leaves the queue it is on and joins the sleep queue. *)
Definition fiber_sleep_enqueue (t : Z) (s : scheduler) : scheduler :=
  match currentFiber s with
  | None => s
  | Some c =>
      let s1 := update c (set_context (Word.wrap32 (ticks s + t))) s in
      queue_fiber c SleepQueue (dequeue_fiber c s1)
  end.

(** The wake-up test of the tick handler: the wake time "has passed". *)
Definition wake_time_passed (now : Z) (wake_time : Z) : bool := wake_time <=? now.

(** Modelled from the spec: [scheduler_tick] is declared only.  "Invoked
    from a periodic timer interrupt every fixed tick period.  Scans the
    sleep queue; any fiber whose wake time has passed is dequeued and
    moved to the run queue."  The millisecond counter advances by the
    period [FIBER_TICK_PERIOD_MS] of the header, in 32 bits. *)
Definition scheduler_tick (s : scheduler) : scheduler :=
  let s1 := set_ticks (Word.wrap32 (ticks s + FIBER_TICK_PERIOD_MS)) s in
  wake_scan (size (fibers s1)) (wake_time_passed (ticks s1)) (sleepQueue s1) s1.

(** Modelled from the spec: the first half of [fiber_wait_for_event], up
    to the call of the scheduler.  "Registers the calling fiber's interest
    in a specific (id, value) event pair, places it on a wait queue". *)
Definition fiber_wait_enqueue (id v : Z) (s : scheduler) : scheduler :=
  match currentFiber s with
  | None => s
  | Some c =>
      let s1 := update c (set_context (event_key id v)) s in
      queue_fiber c WaitQueue (dequeue_fiber c s1)
  end.

(** The match of a registration with an event: "exact match on both
    fields". *)
Definition event_matches (evt : MicroBitEvent) (c : Z) : bool :=
  (key_id c =? wrap16 (source evt)) && (key_value c =? wrap16 (value evt)).

(** Modelled from the spec: [scheduler_event] is declared only.  "Scans
    the wait queue for fibers whose registered (id, value) matches this
    event (exact match on both fields) and moves matches to the run
    queue." *)
Definition scheduler_event (evt : MicroBitEvent) (s : scheduler) : scheduler :=
  wake_scan (size (fibers s)) (event_matches evt) (waitQueue s) s.

(** The (id, value) pair a fiber is registered for. *)
Definition registration (s : scheduler) (f : fiber_ptr) : option (Z * Z) :=
  (fun c => (key_id c, key_value c)) <$> context_of s f.

(** Fiber [f] waits on the event pair (id, v). *)
Definition waits_for (s : scheduler) (f : fiber_ptr) (id v : Z) : Prop :=
  on_queue s f WaitQueue /\ registration s f = Some (wrap16 id, wrap16 v).

(** ** The platform *)

(** The routines whose addresses the scheduler stores in register
    contexts. *)
Inductive routine :=
  | fn_launch_new_fiber
  | fn_launch_new_fiber_param
  | fn_release_fiber
  | fn_release_fiber_param.

(** The primitives the scheduler calls and does not define: the assembler
    routines declared [extern "C"] in the header, the processor intrinsics
    and the allocator.  [machine] is everything they act on: the registers,
    the physical stack and the heap. *)
Class Platform := {
  machine : Type;
  get_MSP : machine -> Z;
  wait_for_interrupt : machine -> machine;
  malloc : Z -> machine -> Z * machine;
  free : Z -> machine -> machine;
  swap_context :
    Cortex_M0_TCB -> Cortex_M0_TCB -> Z -> Z -> machine -> Cortex_M0_TCB * machine;
  save_context : Z -> machine -> Cortex_M0_TCB * machine;
  save_register_context : machine -> Cortex_M0_TCB;
  restore_register_context : Cortex_M0_TCB -> machine -> machine;
  address_of : routine -> Z }.

(** What the scheduler may be interrupted by: the periodic timer, the
    message bus delivering an event, or an interrupt it has no handler
    for. *)
Inductive interrupt :=
  | Tick
  | Event (evt : MicroBitEvent)
  | Other.

Definition deliver (i : interrupt) (s : scheduler) : scheduler :=
  match i with
  | Tick => scheduler_tick s
  | Event evt => scheduler_event evt s
  | Other => s
  end.

(** The state of the scheduler after the interrupts [irqs], in order. *)
Definition deliver_all (irqs : list interrupt) (s : scheduler) : scheduler :=
  fold_left (fun s' i => deliver i s') irqs s.

(** What a call of the scheduler does, step by step. *)
Inductive action :=
  | Idle
  | Resize (f : fiber_ptr)
  | Swap (from to : fiber_ptr).

Record schedule_result {St : Type} := mkResult {
  trace : list action;
  final : St;
  resumed : bool }.
Arguments schedule_result : clear implicits.

Definition after_idle {St : Type} (r : schedule_result St) : schedule_result St :=
  mkResult St (Idle :: trace r) (final r) (resumed r).

(** What running a function of the application does: it returns, or it
    reaches a suspension point, with the rest of its work to be continued
    from the state it is resumed in. *)
Inductive blocking_call :=
  | BlockSchedule
  | BlockSleep (t : Z)
  | BlockWait (id v : Z).

Inductive run (St : Type) :=
  | Returns (st : St)
  | Suspends (b : blocking_call) (st : St) (k : St -> run St).
Arguments Returns {St} st.
Arguments Suspends {St} b st k.

(** [r] followed by [g]. *)
Fixpoint then_run {St : Type} (r : run St) (g : St -> run St) : run St :=
  match r with
  | Returns st => g st
  | Suspends b st k => Suspends b st (fun x => then_run (k x) g)
  end.

(** [r] resumed at each suspension point from the next state of [path]. *)
Fixpoint resume {St : Type} (r : run St) (path : list St) : run St :=
  match r, path with
  | Suspends _ _ k, x :: path' => resume (k x) path'
  | _, _ => r
  end.

(** [r] returns in state [st'] when resumed along exactly [path]. *)
Fixpoint returns_via {St : Type} (r : run St) (path : list St) (st' : St) : Prop :=
  match r, path with
  | Returns st, [] => st = st'
  | Suspends _ _ k, x :: path' => returns_via (k x) path' st'
  | _, _ => False
  end.

Section Scheduler.
Context {P : Platform}.

(** The policy of [verify_stack_size] for the size of a replacement
    buffer, given the size of the old buffer and the depth to hold. *)
Variable grow : Z -> Z -> Z.

(** The behaviour of the code at an address, called with arguments. *)
Variable invoke : Z -> list Z -> scheduler * machine -> run (scheduler * machine).

(** ** Stack virtualization *)

(** The capacity of the stack buffer of a fiber. *)
Definition buffer_size (fb : Fiber) : Z :=
  Word.wrap32 (stack_top fb - stack_bottom fb).

(** The extent of the system stack in use. *)
Definition stack_depth (m : machine) : Z :=
  Word.wrap32 (CORTEX_M0_STACK_BASE - get_MSP m).

(** Modelled from the spec: [verify_stack_size] is declared [inline] in the
    header without a body.  Its comment there: "If the stack allocation is
    large enough to hold the current system stack, then this function does
    nothing.  Otherwise, the current allocation of the fiber is freed, and a
    larger block is allocated."  The size of the larger block is left to
    [grow]. *)
Definition verify_stack_size (f : fiber_ptr) (st : scheduler * machine)
  : scheduler * machine :=
  match fibers (fst st) !! f with
  | None => st
  | Some fb =>
      if buffer_size fb <? stack_depth (snd st) then
        let size := grow (buffer_size fb) (stack_depth (snd st)) in
        let m1 := free (stack_bottom fb) (snd st) in
        let '(bottom, m2) := malloc size m1 in
        (update f (set_stack (Word.wrap32 (bottom + size)) bottom) (fst st), m2)
      else st
  end.

(** ** Scheduler core *)

(** Modelled from the spec: steps 3 and 4 of [schedule], with its edge
    case.  "If the fiber being switched to is the same as current, this is
    a no-op fast path"; otherwise "resize the new fiber's stack-image
    allocation if needed before switching to it", then [swap_context] saves
    the registers and the stack of the current fiber and restores those of
    the next one, which becomes the current fiber.  A pointer that names no
    fiber leaves the state as it is. *)
Definition switch_to (next : fiber_ptr) (st : scheduler * machine)
  : list action * (scheduler * machine) :=
  match currentFiber (fst st) with
  | None => ([], st)
  | Some cur =>
      if decide (cur = next) then ([], st)
      else
        let st1 := verify_stack_size next st in
        match fibers (fst st1) !! cur, fibers (fst st1) !! next with
        | Some cb, Some nb =>
            let '(saved, m2) :=
              swap_context (tcb cb) (tcb nb) (stack_top cb) (stack_top nb) (snd st1) in
            ([Resize next; Swap cur next],
             (set_current (Some next) (update cur (set_tcb saved) (fst st1)), m2))
        | _, _ => ([], st)
        end
  end.

(** Modelled from the spec: [idle_task] is declared only.  Its comment in
    the header: "Only scheduled for execution when the runqueue is empty.
    Performs a processor sleep operation, then returns to the scheduler -
    most likely after a timer interrupt."  The processor sleeps until the
    interrupt [i], whose handler runs before the scheduler goes on. *)
Definition idle_task (i : interrupt) (st : scheduler * machine) : scheduler * machine :=
  (deliver i (fst st), wait_for_interrupt (snd st)).

(** Modelled from the spec: [schedule] is declared only.  "If the run
    queue is empty, call the external idle primitive and retry; otherwise,
    pick the head of the run queue as the next fiber" and switch to it.
    The idle primitive returns when an interrupt has been served; [irqs]
    are the interrupts that arrive while [schedule] idles.  The result
    tells whether a fiber was resumed or [schedule] still idles when the
    interrupts are used up. *)
Fixpoint schedule (irqs : list interrupt) (st : scheduler * machine)
  : schedule_result (scheduler * machine) :=
  match runQueue (fst st) with
  | Some next =>
      let '(tr, st') := switch_to next st in mkResult _ tr st' true
  | None =>
      match irqs with
      | [] => mkResult _ [] st false
      | i :: rest => after_idle (schedule rest (idle_task i st))
      end
  end.

(** Modelled from the spec: [fiber_sleep] and [fiber_wait_for_event] are
    declared only.  The calling fiber is queued as above "and yields via the
    Scheduler Core". *)
Definition fiber_sleep (t : Z) (irqs : list interrupt) (st : scheduler * machine)
  : schedule_result (scheduler * machine) :=
  schedule irqs (fiber_sleep_enqueue t (fst st), snd st).

Definition fiber_wait_for_event (id v : Z) (irqs : list interrupt)
    (st : scheduler * machine) : schedule_result (scheduler * machine) :=
  schedule irqs (fiber_wait_enqueue id v (fst st), snd st).

(** ** Fiber lifecycle *)

(** The scheduler before [scheduler_init]: no fiber, empty queues. *)
Definition no_fibers : scheduler := mkScheduler ∅ None None None None 0 0.

(** Modelled from the spec: the register context [create_fiber] gives a
    new fiber "so that first execution begins at a small trampoline".  The
    spec names no registers; the model puts the address of the trampoline
    in the link register, the stack pointer at the base of the stack, the
    functions and the parameter in the first three registers, and zero in
    the others. *)
Definition start_context (trampoline a0 a1 a2 : Z) : Cortex_M0_TCB :=
  mkTCB a0 a1 a2 0 0 0 0 0 0 0 0 0 0 CORTEX_M0_STACK_BASE trampoline.

(** Modelled from the spec: the part the two overloads of [create_fiber]
    share.  A new control block, distinct from every existing one, with "a
    fresh minimal stack buffer" of [FIBER_STACK_SIZE] bytes, "zeroed
    context", no flag set, put on the run queue. *)
Definition spawn (regs : Cortex_M0_TCB) (st : scheduler * machine)
  : fiber_ptr * (scheduler * machine) :=
  let f := fresh (dom (fibers (fst st))) in
  let '(bottom, m1) := malloc FIBER_STACK_SIZE (snd st) in
  let fb := mkFiber (Word.wrap32 (bottom + FIBER_STACK_SIZE)) bottom regs 0 0
              None None None in
  (f, (queue_fiber f RunQueue (set_fibers (<[f := fb]> (fibers (fst st))) (fst st)), m1)).

(** Modelled from the spec: [scheduler_init] is declared only.  Its
    comment in the header: "Creates a Fiber context around the calling
    thread, and adds it to the run queue as the current thread."  The tick
    counter starts at zero. *)
Definition scheduler_init (m : machine) : scheduler * machine :=
  let st := snd (spawn zero_tcb (no_fibers, m)) in
  (set_current (Some (fst (spawn zero_tcb (no_fibers, m)))) (fst st), snd st).

(** Modelled from the spec: the body of [create_fiber] is not in the
    header; its declaration, with the default argument
    [completion_fn = release_fiber], is.  "Allocates a new Fiber Control
    Block, gives it a fresh minimal stack buffer, sets its register context
    so that first execution begins at a small trampoline which calls entry
    and then unconditionally calls completion when entry returns, and
    enqueues it on the run queue.  Returns the new Fiber."  An omitted
    completion function is [None]. *)
Definition create_fiber (entry_fn : Z) (completion_fn : option Z)
    (st : scheduler * machine) : fiber_ptr * (scheduler * machine) :=
  let completion := default (address_of fn_release_fiber) completion_fn in
  spawn (start_context (address_of fn_launch_new_fiber) entry_fn completion 0) st.

(** Modelled from the spec: the overload of [create_fiber] with a
    parameter.  Its declaration in the header has the default argument
    [completion_fn = release_fiber], which for this type is the overload of
    [release_fiber] that takes a parameter. *)
Definition create_fiber_param (entry_fn param : Z) (completion_fn : option Z)
    (st : scheduler * machine) : fiber_ptr * (scheduler * machine) :=
  let completion := default (address_of fn_release_fiber_param) completion_fn in
  spawn (start_context (address_of fn_launch_new_fiber_param) entry_fn param completion) st.

(** Modelled from the spec: [launch_new_fiber] is declared only.  The
    trampoline "calls entry and then unconditionally calls completion when
    entry returns"; it finds the two functions in the registers
    [create_fiber] has set. *)
Definition launch_new_fiber (regs : Cortex_M0_TCB) (st : scheduler * machine)
  : run (scheduler * machine) :=
  then_run (invoke (R0 regs) [] st) (fun st' => invoke (R1 regs) [] st').

(** Modelled from the spec: [launch_new_fiber_param] is declared only.
    The trampoline of a fiber with a parameter, "passed into the entry_fn
    and completion_fn". *)
Definition launch_new_fiber_param (regs : Cortex_M0_TCB) (st : scheduler * machine)
  : run (scheduler * machine) :=
  then_run (invoke (R0 regs) [R1 regs] st) (fun st' => invoke (R2 regs) [R1 regs] st').

(** The first execution of a fiber: at the routine its link register
    names. *)
Definition first_run (fb : Fiber) (st : scheduler * machine)
  : option (run (scheduler * machine)) :=
  if LR (tcb fb) =? address_of fn_launch_new_fiber
  then Some (launch_new_fiber (tcb fb) st)
  else if LR (tcb fb) =? address_of fn_launch_new_fiber_param
  then Some (launch_new_fiber_param (tcb fb) st)
  else None.

(** ** Fork on block *)

(** The queue a blocking call leaves its caller on. *)
Definition queue_of_call (b : blocking_call) : queue_id :=
  match b with
  | BlockSchedule => RunQueue
  | BlockSleep _ => SleepQueue
  | BlockWait _ _ => WaitQueue
  end.

(** What [fork_on_block] gives: the function ran inline and control is
    back at the caller, or the function blocked and a child fiber stands
    for it, about to make the blocking call [b] and to continue with [k],
    while the current fiber's saved context is the caller's. *)
Inductive fork_result :=
  | Inline (st : scheduler * machine)
  | Forked (child : fiber_ptr) (b : blocking_call)
      (k : scheduler * machine -> run (scheduler * machine))
      (st : scheduler * machine).

Definition mark_parent (snapshot : Cortex_M0_TCB) (fb : Fiber) : Fiber :=
  set_flags (Flags.set_flag (flags fb) MICROBIT_FIBER_FLAG_PARENT) (set_tcb snapshot fb).

Definition clear_parent (fb : Fiber) : Fiber :=
  set_flags (Flags.clear_flag (flags fb) MICROBIT_FIBER_FLAG_PARENT) fb.

Definition mark_child (regs : Cortex_M0_TCB) (fb : Fiber) : Fiber :=
  set_flags MICROBIT_FIBER_FLAG_CHILD (set_tcb regs fb).

(** The queue part of a blocking call, made by the current fiber. *)
Definition block_current (b : blocking_call) (s : scheduler) : scheduler :=
  match b with
  | BlockSchedule => s
  | BlockSleep t => fiber_sleep_enqueue t s
  | BlockWait id v => fiber_wait_enqueue id v s
  end.

(** Modelled from the spec: what happens when a function run by
    [fork_on_block] blocks.  "The scheduler must, at that point,
    retroactively materialize a real Fiber for the now-suspended child
    continuation and for the parent continuation": a new control block is
    made as [create_fiber] makes one, its buffer is sized for the stack in
    use, [save_context] copies the registers and the stack into it, it is
    flagged as child and becomes the calling fiber of the blocking call.
    The parent continuation is the control block of the caller, which
    holds the snapshot. *)
Definition materialize (st : scheduler * machine) : fiber_ptr * (scheduler * machine) :=
  let '(n, st1) := spawn zero_tcb st in
  let st2 := verify_stack_size n st1 in
  match fibers (fst st2) !! n with
  | None => (n, st2)
  | Some nb =>
      let '(regs, m3) := save_context (stack_top nb) (snd st2) in
      (n, (set_current (Some n) (update n (mark_child regs) (fst st2)), m3))
  end.

(** Modelled from the spec: [fork_on_block] is declared only.  "Takes a
    snapshot of the current fiber's context (marking current as parent),
    then calls the target function directly on the current physical stack.
    The function returns without blocking: control returns to the caller,
    no new Fiber was ever materialized.  The function blocks: the
    scheduler materializes a real Fiber for the child continuation and for
    the parent continuation before switching away." *)
Definition fork_on_block (entry_fn : Z) (st : scheduler * machine) : fork_result :=
  match currentFiber (fst st) with
  | None => Inline st
  | Some c =>
      let snapshot := save_register_context (snd st) in
      let s1 := update c (mark_parent snapshot) (fst st) in
      match invoke entry_fn [] (s1, snd st) with
      | Returns st2 => Inline (update c clear_parent (fst st2), snd st2)
      | Suspends b st2 k =>
          let '(n, st3) := materialize st2 in
          Forked n b k (block_current b (fst st3), snd st3)
      end
  end.

(** Modelled from the spec: the overload of [fork_on_block] with a
    parameter, which differs in passing it to the function. *)
Definition fork_on_block_param (entry_fn param : Z) (st : scheduler * machine)
  : fork_result :=
  match currentFiber (fst st) with
  | None => Inline st
  | Some c =>
      let snapshot := save_register_context (snd st) in
      let s1 := update c (mark_parent snapshot) (fst st) in
      match invoke entry_fn [param] (s1, snd st) with
      | Returns st2 => Inline (update c clear_parent (fst st2), snd st2)
      | Suspends b st2 k =>
          let '(n, st3) := materialize st2 in
          Forked n b k (block_current b (fst st3), snd st3)
      end
  end.

(** ** The system as a whole *)

(** The scheduler's data, the machine, and whether the processor is inside
    [schedule] (a fiber has yielded and none has been resumed yet). *)
Record system := mkSystem {
  sched : scheduler;
  mach : machine;
  in_schedule : bool }.

(** The steps of the system: an interrupt is served; the running fiber
    calls an operation of the scheduler; the scheduler, once entered, takes
    one turn of its loop. *)
Inductive step :=
  | Interrupt (i : interrupt)
  | CallSleep (t : Z)
  | CallWait (id v : Z)
  | CallSchedule
  | CallCreate (entry_fn : Z) (completion_fn : option Z)
  | Turn.

Definition exec (a : step) (y : system) : option system :=
  match a with
  | Interrupt i => Some (mkSystem (deliver i (sched y)) (mach y) (in_schedule y))
  | CallSleep t =>
      if in_schedule y then None
      else Some (mkSystem (fiber_sleep_enqueue t (sched y)) (mach y) true)
  | CallWait id v =>
      if in_schedule y then None
      else Some (mkSystem (fiber_wait_enqueue id v (sched y)) (mach y) true)
  | CallSchedule =>
      if in_schedule y then None else Some (mkSystem (sched y) (mach y) true)
  | CallCreate entry_fn completion_fn =>
      if in_schedule y then None
      else
        let st := snd (create_fiber entry_fn completion_fn (sched y, mach y)) in
        Some (mkSystem (fst st) (snd st) false)
  | Turn =>
      if in_schedule y then
        match runQueue (sched y) with
        | None => Some (mkSystem (sched y) (wait_for_interrupt (mach y)) true)
        | Some next =>
            let st := snd (switch_to next (sched y, mach y)) in
            Some (mkSystem (fst st) (snd st) false)
        end
      else None
  end.

(** A sequence of steps; [None] when a step is not possible. *)
Fixpoint exec_all (l : list step) (y : system) : option system :=
  match l with
  | [] => Some y
  | a :: l' =>
      match exec a y with
      | Some y' => exec_all l' y'
      | None => None
      end
  end.

(** The number of timer ticks among the steps. *)
Fixpoint count_ticks (l : list step) : Z :=
  match l with
  | [] => 0
  | Interrupt Tick :: l' => 1 + count_ticks l'
  | _ :: l' => count_ticks l'
  end.

End Scheduler.

(** Fiber [f] sleeps until the counter reaches [w]. *)
Definition asleep (s : scheduler) (f : fiber_ptr) (w : Z) : Prop :=
  on_queue s f SleepQueue /\ context_of s f = Some w.

(** The invariant of the system: the queues are well formed, there is a
    current fiber, and while a fiber runs it is on the run queue. *)
Definition system_inv {P : Platform} (y : system) : Prop :=
  queue_inv (sched y) /\
  exists c, currentFiber (sched y) = Some c /\
            is_Some (fibers (sched y) !! c) /\
            (in_schedule y = false -> on_queue (sched y) c RunQueue).

(** The system when [scheduler_init] has returned. *)
Definition booted {P : Platform} (m : machine) : system :=
  mkSystem (fst (scheduler_init m)) (snd (scheduler_init m)) false.

(** ** Example configurations *)

(** A fiber on no queue, with a 64-byte buffer at [bottom]. *)
Definition fresh_fiber (bottom : Z) : Fiber :=
  mkFiber (bottom + FIBER_STACK_SIZE) bottom zero_tcb 0 0 None None None.

(** Two fibers, none queued, none running; the counter at [t]. *)
Definition two_fibers (t : Z) : scheduler :=
  mkScheduler (<[1%nat := fresh_fiber 0x20001000]> (<[2%nat := fresh_fiber 0x20001100]> ∅))
    None None None None t 0.

(** Fiber 1 runs and is on the run queue; fiber 2 is on no queue. *)
Definition one_running (t : Z) : scheduler :=
  set_current (Some 1%nat) (queue_fiber 1 RunQueue (two_fibers t)).

(** A simulated platform for the examples: the machine is the main stack
    pointer and the break of a bump allocator. *)
Definition sim_platform : Platform := {|
  machine := Z * Z;
  get_MSP := fun m => fst m;
  wait_for_interrupt := fun m => m;
  malloc := fun n m => (snd m, (fst m, snd m + n));
  free := fun _ m => m;
  swap_context := fun from to _ _ m =>
    (mkTCB (R0 from) (R1 from) (R2 from) (R3 from) (R4 from) (R5 from) (R6 from)
       (R7 from) (R8 from) (R9 from) (R10 from) (R11 from) (R12 from) (fst m) (LR from),
     (SP to, snd m));
  save_context := fun _ m =>
    (mkTCB 0 0 0 0 0 0 0 0 0 0 0 0 0 (fst m) 0, m);
  save_register_context := fun m => mkTCB 0 0 0 0 0 0 0 0 0 0 0 0 0 (fst m) 0;
  restore_register_context := fun t m => (SP t, snd m);
  address_of := fun r =>
    match r with
    | fn_launch_new_fiber => 0x100
    | fn_launch_new_fiber_param => 0x120
    | fn_release_fiber => 0x140
    | fn_release_fiber_param => 0x160
    end |}.

(** A machine of the simulated platform with [depth] bytes of stack in
    use. *)
Definition sim_machine (depth : Z) : @machine sim_platform :=
  (CORTEX_M0_STACK_BASE - depth, 0x20002000).

(** The policy that allocates exactly the depth to hold. *)
Definition exact_fit (size depth : Z) : Z := depth.

(** A system of the simulated platform in which a fiber runs. *)
Definition sim_system (s : scheduler) (depth : Z) : @system sim_platform :=
  mkSystem s (sim_machine depth) false.

(** Application code for the examples: the function at address 0x400
    sleeps for 12 ms and then returns; every other function returns at
    once. *)
Definition sim_invoke (fn : Z) (args : list Z)
    (st : scheduler * @machine sim_platform) : run (scheduler * @machine sim_platform) :=
  if fn =? 0x400 then Suspends (BlockSleep 12) st (fun st' => Returns st')
  else Returns st.

(** * Proofs *)

(** ** Machine integers *)

Lemma wrap32_range x : 0 <= Word.wrap32 x < 2 ^ 32.
Proof. unfold Word.wrap32. apply Z.mod_pos_bound. lia. Qed.

Lemma wrap32_small x : 0 <= x < 2 ^ 32 -> Word.wrap32 x = x.
Proof. intros. unfold Word.wrap32. apply Z.mod_small. lia. Qed.

Lemma land_low6 x : Z.land x 63 = x mod 64.
Proof. change 63 with (Z.ones 6). rewrite Z.land_ones by lia. reflexivity. Qed.

Lemma to_int32_low6 x : Z.land (Word.to_int32 x) 63 = Z.land x 63.
Proof.
  rewrite !land_low6. unfold Word.to_int32, Word.wrap32.
  assert (H64 : (x mod 2 ^ 32) mod 64 = x mod 64).
  { rewrite (Z.mod_eq x (2 ^ 32)) by lia.
    replace (x - 2 ^ 32 * (x / 2 ^ 32))
      with (x + (- (x / 2 ^ 32) * 2 ^ 26) * 64) by lia.
    apply Z.mod_add. lia. }
  destruct (x mod 2 ^ 32 <? 2 ^ 31); [exact H64|].
  change (2 ^ 32) with (2 ^ 26 * 64) at 2.
  replace (x mod 2 ^ 32 - 2 ^ 26 * 64)
    with (x mod 2 ^ 32 + (- 2 ^ 26) * 64) by lia.
  rewrite Z.mod_add by lia. exact H64.
Qed.

(** ** Flag masks *)

Section FlagFacts.
Import Flags.

Lemma mask_pow2 k : mask k = 2 ^ bit k.
Proof. destruct k; reflexivity. Qed.

Lemma bit_range k : 0 <= bit k < 32.
Proof. destruct k; simpl; lia. Qed.

Lemma bit_inj a b : bit a = bit b -> a = b.
Proof. destruct a, b; simpl; intros; congruence || lia. Qed.

Lemma testbit_not32 x n :
  0 <= n < 32 -> Z.testbit (Word.not32 x) n = negb (Z.testbit x n).
Proof.
  intros Hn. unfold Word.not32, Word.wrap32.
  rewrite Z.mod_pow2_bits_low by lia. apply Z.lnot_spec. lia.
Qed.

Lemma has_flag_testbit flags k :
  has_flag flags (mask k) = Z.testbit flags (bit k).
Proof.
  unfold has_flag. rewrite mask_pow2.
  pose proof (bit_range k) as Hk.
  destruct (Z.testbit flags (bit k)) eqn:Hb.
  - apply negb_true_iff, Z.eqb_neq. intros H0.
    assert (Z.testbit (Z.land flags (2 ^ bit k)) (bit k) = true) as Ht.
    { rewrite Z.land_spec, Hb, Z.pow2_bits_true by lia. reflexivity. }
    rewrite H0, Z.bits_0 in Ht. discriminate.
  - apply negb_false_iff, Z.eqb_eq. apply Z.bits_inj'. intros n Hn.
    rewrite Z.land_spec, Z.bits_0, Z.pow2_bits_eqb by lia.
    destruct (Z.eqb_spec (bit k) n) as [<-|]; [rewrite Hb|];
      auto using andb_false_r.
Qed.

Lemma testbit_set flags a n :
  0 <= n -> Z.testbit (set_flag flags (mask a)) n
            = Z.testbit flags n || (bit a =? n).
Proof.
  intros Hn. unfold set_flag. pose proof (bit_range a).
  rewrite mask_pow2, Z.lor_spec, Z.pow2_bits_eqb by lia. reflexivity.
Qed.

Lemma testbit_clear flags a n :
  0 <= n < 32 -> Z.testbit (clear_flag flags (mask a)) n
                 = Z.testbit flags n && negb (bit a =? n).
Proof.
  intros Hn. unfold clear_flag. pose proof (bit_range a).
  rewrite Z.land_spec, testbit_not32, mask_pow2, Z.pow2_bits_eqb by lia.
  reflexivity.
Qed.

End FlagFacts.

(** ** Queue manager: the shape of the queues *)

Section QueueFacts.
Implicit Types (h : gmap nat Fiber) (s : scheduler) (l : list nat).
Implicit Types (f x : nat) (q : queue_id) (p c e : option nat).

Lemma head_set_head s q q' v :
  head (set_head q v s) q' = if decide (q = q') then v else head s q'.
Proof. destruct q, q'; reflexivity. Qed.

Lemma head_set_head_eq s q v : head (set_head q v s) q = v.
Proof. destruct q; reflexivity. Qed.

Lemma head_set_head_ne s q q' v : q <> q' -> head (set_head q v s) q' = head s q'.
Proof. destruct q, q'; intros; congruence || reflexivity. Qed.

Lemma fibers_set_head s q v : fibers (set_head q v s) = fibers s.
Proof. destruct q; reflexivity. Qed.

Lemma fibers_update s f g : fibers (update f g s) = alter g f (fibers s).
Proof. reflexivity. Qed.

Lemma head_update s f g q : head (update f g s) q = head s q.
Proof. destruct q; reflexivity. Qed.

Lemma dseg_agree h h' q p c l e :
  (forall x, x ∈ l -> h' !! x = h !! x) ->
  dseg h q p c l e -> dseg h' q p c l e.
Proof.
  revert p c. induction l as [|y l IH]; simpl; intros p c Hag; [auto|].
  intros [-> (fb & Hy & Hq & Hp & Hseg)]. split; [reflexivity|].
  exists fb. rewrite Hag by left. repeat split; auto.
  apply IH; [|exact Hseg]. intros x Hx. apply Hag. by right.
Qed.

Lemma dseg_alter_notin h (g : Fiber -> Fiber) x q p c l e :
  x ∉ l -> dseg h q p c l e -> dseg (alter g x h) q p c l e.
Proof.
  intros Hx. apply dseg_agree. intros y Hy.
  apply lookup_alter_ne. intros ->. contradiction.
Qed.

Lemma dseg_elem h q p c l e x :
  dseg h q p c l e -> x ∈ l ->
  exists fb, h !! x = Some fb /\ queue fb = Some q.
Proof.
  revert p c. induction l as [|y l IH]; simpl; intros p c Hseg Hx.
  - inversion Hx.
  - destruct Hseg as [-> (fb & Hy & Hq & Hp & Hseg)].
    apply elem_of_cons in Hx as [->|Hx]; eauto.
Qed.

Lemma last_ptr_cons p y l : last_ptr p (y :: l) = last_ptr (Some y) l.
Proof.
  unfold last_ptr. destruct l as [|z l]; [reflexivity|].
  change (last (y :: z :: l)) with (last (z :: l)).
  destruct (last (z :: l)) eqn:E; [reflexivity|].
  by apply last_None in E.
Qed.

Lemma last_ptr_snoc p l y : last_ptr p (l ++ [y]) = Some y.
Proof. unfold last_ptr. by rewrite last_snoc. Qed.

Lemma last_ptr_Some l y : last_ptr None l = Some y -> exists l', l = l' ++ [y].
Proof.
  unfold last_ptr. destruct (last l) as [z|] eqn:E; [|discriminate].
  intros [= ->]. by apply last_Some.
Qed.

Lemma last_ptr_None l : last_ptr None l = None -> l = [].
Proof.
  unfold last_ptr. destruct (last l) as [z|] eqn:E; [discriminate|].
  intros _. by apply last_None.
Qed.

Lemma dseg_app h q p c l1 l2 e :
  dseg h q p c (l1 ++ l2) e <->
  exists m, dseg h q p c l1 m /\ dseg h q (last_ptr p l1) m l2 e.
Proof.
  revert p c. induction l1 as [|y l1 IH]; simpl; intros p c.
  - split; [intros H; exists c; auto|intros (m & -> & H); exact H].
  - setoid_rewrite last_ptr_cons. split.
    + intros [-> (fb & Hy & Hq & Hp & Hseg)].
      apply IH in Hseg as (m & H1 & H2). exists m. split; [|exact H2].
      split; [reflexivity|]. exists fb. auto.
    + intros (m & [-> (fb & Hy & Hq & Hp & H1)] & H2).
      split; [reflexivity|]. exists fb. repeat split; auto.
      apply IH. eauto.
Qed.

Lemma dseg_set_prev h q p p' x l e :
  x ∉ l -> dseg h q p (Some x) (x :: l) e ->
  dseg (alter (set_prev p') x h) q p' (Some x) (x :: l) e.
Proof.
  intros Hx [_ (fb & Hy & Hq & Hp & Hseg)]. split; [reflexivity|].
  exists (set_prev p' fb). rewrite lookup_alter_eq, Hy. repeat split; auto.
  simpl. by apply dseg_alter_notin.
Qed.

Lemma dseg_set_next_last h q p c l x e e' :
  x ∉ l -> dseg h q p c (l ++ [x]) e ->
  dseg (alter (set_next e') x h) q p c (l ++ [x]) e'.
Proof.
  revert p c. induction l as [|y l IH]; simpl; intros p c Hx.
  - intros [-> (fb & Hy & Hq & Hp & Hseg)]. split; [reflexivity|].
    exists (set_next e' fb). rewrite lookup_alter_eq, Hy. repeat split; auto.
  - intros [-> (fb & Hy & Hq & Hp & Hseg)]. split; [reflexivity|].
    apply not_elem_of_cons in Hx as [Hne Hx].
    exists fb. rewrite lookup_alter_ne by auto. repeat split; auto.
Qed.


Lemma set_list_eq q l L : set_list q l L q = l.
Proof. unfold set_list. by rewrite decide_True. Qed.

Lemma set_list_ne q q' l L : q' <> q -> set_list q l L q' = L q'.
Proof. intros. unfold set_list. by rewrite decide_False. Qed.

Lemma queues_are_queue s L f q fb :
  queues_are s L -> f ∈ L q -> fibers s !! f = Some fb -> queue fb = Some q.
Proof.
  intros [Hseg _ _] Hf Hfb.
  destruct (dseg_elem _ _ _ _ _ _ _ (Hseg q) Hf) as (fb' & Hfb' & Hq). congruence.
Qed.

Lemma queues_are_disjoint s L f q q' :
  queues_are s L -> f ∈ L q -> f ∈ L q' -> q = q'.
Proof.
  intros HL Hf Hf'.
  destruct (dseg_elem _ _ _ _ _ _ _ (qa_seg _ _ HL q) Hf) as (fb & Hfb & Hq).
  pose proof (queues_are_queue _ _ _ _ _ HL Hf' Hfb). congruence.
Qed.

Lemma unqueued_notin s L f q : queues_are s L -> unqueued s f -> f ∉ L q.
Proof.
  intros HL (fb & Hfb & Hq) Hf.
  pose proof (queues_are_queue _ _ _ _ _ HL Hf Hfb). congruence.
Qed.

Lemma queue_fiber_lookup s f q x :
  fibers (queue_fiber f q s) !! x =
  (fun fb =>
     (if decide (head s q = Some x) then set_prev (Some f) else id)
       ((if decide (x = f) then set_links (Some q) (head s q) None else id) fb))
    <$> fibers s !! x.
Proof.
  unfold queue_fiber. rewrite fibers_set_head.
  destruct (head s q) as [h0|] eqn:Hh; simpl.
  - rewrite !lookup_alter.
    repeat case_decide; simplify_eq;
      repeat match goal with
             | |- context [fibers s !! ?y] => destruct (fibers s !! y)
             end; reflexivity.
  - rewrite lookup_alter.
    repeat case_decide; simplify_eq;
      repeat match goal with
             | |- context [fibers s !! ?y] => destruct (fibers s !! y)
             end; reflexivity.
Qed.

Lemma queue_fiber_are s L f q :
  queues_are s L -> unqueued s f ->
  queues_are (queue_fiber f q s) (set_list q (f :: L q) L).
Proof.
  intros HL Hun. pose proof HL as [Hseg Hnd Hback].
  destruct Hun as (fb & Hfb & Hfq).
  assert (forall q0, f ∉ L q0) as Hfnot.
  { intros q0. eapply unqueued_notin; [exact HL|]. exists fb. auto. }
  split.
  - intros q0. destruct (decide (q0 = q)) as [->|Hne].
    + rewrite set_list_eq. unfold queue_fiber. rewrite head_set_head_eq, fibers_set_head.
      specialize (Hseg q). specialize (Hnd q).
      destruct (L q) as [|h0 l'] eqn:HLq; simpl in Hseg.
      * rewrite Hseg. simpl. split; [reflexivity|].
        exists (set_links (Some q) None None fb).
        rewrite lookup_alter_eq, Hfb. repeat split; reflexivity.
      * destruct Hseg as [Hhd Hrest]. rewrite Hhd. simpl.
        assert (h0 <> f) as Hh0f.
        { intros ->. apply (Hfnot q). rewrite HLq. left. }
        split; [reflexivity|].
        exists (set_links (Some q) (Some h0) None fb).
        rewrite lookup_alter_ne, lookup_alter_eq, Hfb by exact Hh0f.
        do 3 (split; [reflexivity|]).
        apply NoDup_cons in Hnd as [Hh0 _].
        apply (dseg_set_prev _ q None (Some f) h0 l' None); [exact Hh0|].
        apply dseg_alter_notin; [rewrite <- HLq; apply Hfnot|].
        split; [reflexivity|exact Hrest].
    + rewrite set_list_ne by exact Hne. unfold queue_fiber.
      rewrite head_set_head_ne by auto.
      rewrite fibers_set_head.
      assert (dseg (alter (set_links (Some q) (head s q) None) f (fibers s))
                q0 None (head s q0) (L q0) None) as H1.
      { apply dseg_alter_notin; auto. }
      destruct (head s q) as [h0|] eqn:Hh; simpl; [|exact H1].
      rewrite head_update. apply dseg_alter_notin; [|exact H1].
      intros Hin. apply Hne.
      assert (h0 ∈ L q) as Hq.
      { specialize (Hseg q). rewrite Hh in Hseg.
        destruct (L q); simpl in Hseg; [discriminate|].
        destruct Hseg as [[= ->] _]. left. }
      eapply queues_are_disjoint; eauto.
  - intros q0. unfold set_list. case_decide; [|apply Hnd].
    apply NoDup_cons. split; [apply Hfnot|apply Hnd].
  - intros g gb q0 Hg Hq0. rewrite queue_fiber_lookup in Hg.
    destruct (fibers s !! g) as [gb0|] eqn:Hg0; [|discriminate].
    simpl in Hg. injection Hg as <-.
    unfold set_list. destruct (decide (g = f)) as [->|Hgf].
    + assert (q0 = q) as ->.
      { case_decide; simpl in Hq0; congruence. }
      rewrite decide_True by reflexivity. left.
    + assert (queue gb0 = Some q0) as Hq1.
      { case_decide; simpl in Hq0; exact Hq0. }
      specialize (Hback _ _ _ Hg0 Hq1).
      destruct (decide (q0 = q)) as [->|]; [by right|exact Hback].
Qed.


Lemma dequeue_fiber_unfold s f fb q :
  fibers s !! f = Some fb -> queue fb = Some q ->
  dequeue_fiber f s =
  update f (set_links None None None)
    (match next fb with
     | Some n => update n (set_prev (prev fb))
     | None => fun s1 => s1
     end
       (match prev fb with
        | Some p => update p (set_next (next fb)) s
        | None => set_head q (next fb) s
        end)).
Proof.
  intros Hfb Hq. unfold dequeue_fiber. rewrite Hfb, Hq.
  destruct (next fb); reflexivity.
Qed.

Lemma dequeue_fiber_lookup s f fb q x :
  fibers s !! f = Some fb -> queue fb = Some q ->
  fibers (dequeue_fiber f s) !! x =
  (fun xb =>
     (if decide (x = f) then set_links None None None else id)
       ((if decide (next fb = Some x) then set_prev (prev fb) else id)
          ((if decide (prev fb = Some x) then set_next (next fb) else id) xb)))
    <$> fibers s !! x.
Proof.
  intros Hfb Hq. rewrite (dequeue_fiber_unfold _ _ _ _ Hfb Hq).
  destruct (prev fb) as [p0|], (next fb) as [n0|]; simpl;
    rewrite ?fibers_set_head, ?lookup_alter;
    repeat case_decide; simplify_eq;
    repeat match goal with
           | |- context [fibers s !! ?y] => destruct (fibers s !! y)
           end; reflexivity.
Qed.

Lemma dequeue_fiber_head s f fb q q' :
  fibers s !! f = Some fb -> queue fb = Some q ->
  head (dequeue_fiber f s) q' =
  if decide (q = q' /\ prev fb = None) then next fb else head s q'.
Proof.
  intros Hfb Hq. rewrite (dequeue_fiber_unfold _ _ _ _ Hfb Hq).
  destruct (prev fb) as [p0|], (next fb) as [n0|];
    rewrite ?head_update, ?head_set_head;
    destruct (decide (q = q')) as [->|Hne];
    try (rewrite decide_True by auto; reflexivity);
    rewrite decide_False; try reflexivity; intros [? ?]; congruence.
Qed.

Lemma dequeue_fiber_are s L f q l1 l2 :
  queues_are s L -> L q = l1 ++ f :: l2 ->
  queues_are (dequeue_fiber f s) (set_list q (l1 ++ l2) L).
Proof.
  intros HL HLq. pose proof HL as [Hseg Hnd Hback].
  pose proof (Hseg q) as Hq. rewrite HLq in Hq.
  apply dseg_app in Hq as (m & Hpre & Hsuf).
  destruct Hsuf as [-> (fb & Hfb & Hfq & Hfp & Hsuf)].
  pose proof (Hnd q) as Hndq. rewrite HLq in Hndq.
  apply NoDup_app in Hndq as (Hnd1 & Hdisj & Hnd2).
  apply NoDup_cons in Hnd2 as [Hf2 Hnd2].
  assert (f ∉ l1) as Hf1.
  { intros Hin. apply (Hdisj _ Hin). left. }
  assert (forall x, x ∈ l1 ++ l2 -> x ∈ L q) as Hsub.
  { intros x Hx. rewrite HLq. apply elem_of_app in Hx as [Hx|Hx];
      apply elem_of_app; [left|right; right]; exact Hx. }
  rewrite (dequeue_fiber_unfold _ _ _ _ Hfb Hfq).
  split.
  - intros q0. destruct (decide (q0 = q)) as [->|Hne].
    + rewrite set_list_eq. apply dseg_app.
      exists (next fb). split.
      * (* the fibers before [f] *)
        destruct (prev fb) as [y|] eqn:Hp.
        -- symmetry in Hfp. apply last_ptr_Some in Hfp as (l1' & ->).
           rename l1' into l1.
           apply not_elem_of_app in Hf1 as [Hf1 Hfy].
           apply NoDup_app in Hnd1 as (_ & Hy1 & _).
           assert (y ∉ l1) as Hy.
           { intros Hin. apply (Hy1 _ Hin). left. }
           assert (dseg (alter (set_next (next fb)) y (fibers s)) q None
                     (head s q) (l1 ++ [y]) (next fb)) as H1.
           { eapply dseg_set_next_last; eauto. }
           assert (head
                     (update f (set_links None None None)
                        (match next fb with
                         | Some n => update n (set_prev (Some y))
                         | None => fun s1 => s1
                         end (update y (set_next (next fb)) s))) q = head s q) as ->.
           { destruct (next fb); rewrite ?head_update; reflexivity. }
           assert (f ∉ l1 ++ [y]) as Hfn.
           { apply not_elem_of_app. split; [exact Hf1|exact Hfy]. }
           destruct (next fb) as [n|] eqn:Hn; simpl.
           ++ apply dseg_alter_notin; [exact Hfn|].
              apply dseg_alter_notin; [|exact H1].
              destruct l2 as [|n' l2]; simpl in Hsuf; [discriminate|].
              destruct Hsuf as [[= <-] _].
              intros Hin. apply (Hdisj _ Hin). right. left.
           ++ apply dseg_alter_notin; [exact Hfn|exact H1].
        -- symmetry in Hfp. apply last_ptr_None in Hfp as ->. simpl.
           destruct (next fb); rewrite ?head_update; apply head_set_head_eq.
      * (* the fibers after [f] *)
        rewrite <- Hfp.
        destruct l2 as [|n l2]; simpl in Hsuf.
        -- simpl. exact Hsuf.
        -- destruct Hsuf as [Hn Hsuf]. rewrite Hn.
           apply NoDup_cons in Hnd2 as [Hn2 Hnd2].
           assert (n <> f) as Hnf.
           { intros ->. apply Hf2. left. }
           assert (dseg (fibers
                     (match prev fb with
                      | Some p => update p (set_next (Some n)) s
                      | None => set_head q (Some n) s
                      end)) q (Some f) (Some n) (n :: l2) None) as H1.
           { destruct (prev fb) as [p0|] eqn:Hp.
             - rewrite fibers_update. apply dseg_alter_notin; [|split; [reflexivity|exact Hsuf]].
               intros Hin. symmetry in Hfp.
               apply last_ptr_Some in Hfp as (l1' & ->).
               apply (Hdisj p0); [apply elem_of_app; right; left|].
               right. exact Hin.
             - rewrite fibers_set_head. split; [reflexivity|exact Hsuf]. }
           rewrite !fibers_update. apply dseg_alter_notin.
           { apply not_elem_of_cons. split; [auto|].
             intros Hin. apply Hf2. right. exact Hin. }
           apply (dseg_set_prev _ q (Some f) (prev fb) n l2 None); [exact Hn2|].
           exact H1.
    + rewrite set_list_ne by exact Hne.
      assert (forall x xb, fibers s !! x = Some xb -> queue xb = Some q -> x ∉ L q0)
        as Hnot.
      { intros x xb Hx Hxq Hin.
        pose proof (queues_are_queue _ _ _ _ _ HL Hin Hx). congruence. }
      assert (f ∉ L q0) as Hf0 by eauto.
      assert (forall y, prev fb = Some y -> y ∉ L q0) as Hp0.
      { intros y Hy. rewrite Hy in Hfp. symmetry in Hfp.
        apply last_ptr_Some in Hfp as (l1' & ->).
        intros Hin. assert (y ∈ L q) as Hin'.
        { rewrite HLq. apply elem_of_app. left. apply elem_of_app. right. left. }
        apply Hne. eapply queues_are_disjoint; eauto. }
      assert (forall y, next fb = Some y -> y ∉ L q0) as Hn0.
      { intros y Hy. rewrite Hy in Hsuf.
        destruct l2 as [|z l2]; simpl in Hsuf; [discriminate|].
        destruct Hsuf as [[= ->] _].
        intros Hin. assert (z ∈ L q) as Hin'.
        { rewrite HLq. apply elem_of_app. right. right. left. }
        apply Hne. eapply queues_are_disjoint; eauto. }
      assert (head
                (update f (set_links None None None)
                   (match next fb with
                    | Some n => update n (set_prev (prev fb))
                    | None => fun s1 => s1
                    end
                      (match prev fb with
                       | Some p => update p (set_next (next fb)) s
                       | None => set_head q (next fb) s
                       end))) q0 = head s q0) as ->.
      { destruct (prev fb), (next fb);
          rewrite ?head_update, ?head_set_head_ne by auto; reflexivity. }
      specialize (Hseg q0).
      destruct (prev fb) as [p0|], (next fb) as [n0|]; simpl;
        rewrite ?fibers_set_head;
        repeat (apply dseg_alter_notin; [solve [eauto]|]); exact Hseg.
  - intros q0. unfold set_list. case_decide; [|apply Hnd].
    apply NoDup_app. split; [exact Hnd1|]. split; [|exact Hnd2].
    intros x Hx1 Hx2. apply (Hdisj _ Hx1). right. exact Hx2.
  - intros g gb q0 Hg Hq0.
    rewrite <- (dequeue_fiber_unfold _ _ _ _ Hfb Hfq) in Hg.
    rewrite (dequeue_fiber_lookup _ _ _ _ _ Hfb Hfq) in Hg.
    destruct (fibers s !! g) as [gb0|] eqn:Hg0; [|discriminate].
    simpl in Hg. injection Hg as <-.
    destruct (decide (g = f)) as [->|Hgf]; [simpl in Hq0; discriminate|].
    assert (queue gb0 = Some q0) as Hq1.
    { repeat case_decide; simpl in Hq0; exact Hq0. }
    specialize (Hback _ _ _ Hg0 Hq1).
    unfold set_list. destruct (decide (q0 = q)) as [->|]; [|exact Hback].
    rewrite HLq in Hback. apply elem_of_app in Hback as [Hb|Hb].
    + apply elem_of_app. by left.
    + apply elem_of_cons in Hb as [->|Hb]; [congruence|].
      apply elem_of_app. by right.
Qed.


Lemma walk_dseg h q p c l fuel :
  dseg h q p c l None -> (length l <= fuel)%nat -> walk fuel h c = l.
Proof.
  revert p c fuel. induction l as [|x l IH]; simpl; intros p c fuel Hseg Hlen.
  - rewrite Hseg. destruct fuel; reflexivity.
  - destruct Hseg as [-> (fb & Hx & _ & _ & Hseg)].
    destruct fuel as [|fuel]; [lia|]. simpl. rewrite Hx.
    f_equal. eapply IH; [exact Hseg|lia].
Qed.

Lemma queues_are_length s L q :
  queues_are s L -> (length (L q) <= size (fibers s))%nat.
Proof.
  intros HL. pose proof HL as [Hseg Hnd _].
  rewrite <- size_dom, <- (size_list_to_set (C := gset nat) (L q)) by apply Hnd.
  apply subseteq_size. intros x Hx. apply elem_of_list_to_set in Hx.
  destruct (dseg_elem _ _ _ _ _ _ _ (Hseg q) Hx) as (fb & Hfb & _).
  apply elem_of_dom. eauto.
Qed.

Lemma queue_members_are s L q : queues_are s L -> queue_members s q = L q.
Proof.
  intros HL. unfold queue_members.
  eapply walk_dseg; [apply (qa_seg _ _ HL)|].
  by apply queues_are_length.
Qed.

Lemma queue_inv_exclusive s : queue_inv s -> queue_exclusive s.
Proof.
  intros [L HL] f. unfold on_queue.
  split; [|split].
  - intros q1 q2. rewrite !(queue_members_are _ _ _ HL).
    eapply queues_are_disjoint; eauto.
  - intros q. rewrite (queue_members_are _ _ _ HL). intros Hf.
    eapply dseg_elem; [apply (qa_seg _ _ HL)|exact Hf].
  - intros fb q Hfb Hq. rewrite (queue_members_are _ _ _ HL).
    eapply qa_back; eauto.
Qed.

Lemma dequeue_fiber_noop s f :
  (forall fb, fibers s !! f = Some fb -> queue fb = None) ->
  dequeue_fiber f s = s.
Proof.
  intros H. unfold dequeue_fiber. destruct (fibers s !! f) as [fb|]; [|reflexivity].
  by rewrite (H fb).
Qed.

Lemma queue_fiber_inv s f q :
  queue_inv s -> unqueued s f -> queue_inv (queue_fiber f q s).
Proof. intros [L HL] Hf. eexists. by apply queue_fiber_are. Qed.

Lemma dequeue_fiber_inv s f : queue_inv s -> queue_inv (dequeue_fiber f s).
Proof.
  intros [L HL].
  destruct (fibers s !! f) as [fb|] eqn:Hfb.
  - destruct (queue fb) as [q|] eqn:Hq.
    + pose proof (qa_back _ _ HL _ _ _ Hfb Hq) as Hin.
      apply list_elem_of_split in Hin as (l1 & l2 & HLq).
      eexists. eapply dequeue_fiber_are; eauto.
    + rewrite dequeue_fiber_noop; [by exists L|]. intros fb'. congruence.
  - rewrite dequeue_fiber_noop; [by exists L|]. intros fb'. congruence.
Qed.

End QueueFacts.

(** ** Moving fibers between queues *)

Section WakeFacts.
Implicit Types (h : gmap nat Fiber) (s : scheduler) (l : list nat).
Implicit Types (f x : nat) (q : queue_id) (p c e : option nat).

Lemma same_data_refl s : same_data s s.
Proof. repeat split. Qed.

Lemma same_data_trans s1 s2 s3 :
  same_data s1 s2 -> same_data s2 s3 -> same_data s1 s3.
Proof.
  intros (H1 & H2 & H3 & H4) (G1 & G2 & G3 & G4).
  split; [intros x; by rewrite G1, H1|repeat split; congruence].
Qed.

Lemma fiber_data_context (fb fb' : Fiber) :
  fiber_data fb' = fiber_data fb -> context fb' = context fb.
Proof. unfold fiber_data. intros [= _ _ _ H _]. exact H. Qed.

Lemma same_data_context s s' x : same_data s s' -> context_of s' x = context_of s x.
Proof.
  intros (H & _). specialize (H x). unfold context_of.
  destruct (fibers s' !! x), (fibers s !! x); simpl in *; try congruence.
  f_equal. apply fiber_data_context. congruence.
Qed.

Lemma same_data_lookup s s' x fb :
  same_data s s' -> fibers s !! x = Some fb ->
  exists fb', fibers s' !! x = Some fb' /\ fiber_data fb' = fiber_data fb.
Proof.
  intros (H & _) Hx. specialize (H x). rewrite Hx in H.
  destruct (fibers s' !! x) as [fb'|]; simpl in H; [|discriminate].
  exists fb'. split; congruence.
Qed.

Lemma queue_fiber_same_data s f q : same_data s (queue_fiber f q s).
Proof.
  split.
  - intros x. rewrite queue_fiber_lookup.
    destruct (fibers s !! x) as [fb|]; [|reflexivity]. simpl.
    repeat case_decide; reflexivity.
  - unfold queue_fiber. destruct q, (head s _); repeat split.
Qed.

Lemma dequeue_fiber_same_data s f : same_data s (dequeue_fiber f s).
Proof.
  destruct (fibers s !! f) as [fb|] eqn:Hfb.
  - destruct (queue fb) as [q|] eqn:Hq.
    + split.
      * intros x. rewrite (dequeue_fiber_lookup _ _ _ _ _ Hfb Hq).
        destruct (fibers s !! x) as [xb|]; [|reflexivity]. simpl.
        repeat case_decide; reflexivity.
      * rewrite (dequeue_fiber_unfold _ _ _ _ Hfb Hq).
        destruct q, (prev fb), (next fb); repeat split.
    + rewrite dequeue_fiber_noop; [apply same_data_refl|]. intros; congruence.
  - rewrite dequeue_fiber_noop; [apply same_data_refl|]. intros; congruence.
Qed.

Lemma dequeue_fiber_unqueued s f fb :
  fibers s !! f = Some fb -> unqueued (dequeue_fiber f s) f.
Proof.
  intros Hfb. destruct (queue fb) as [q|] eqn:Hq.
  - eexists. rewrite (dequeue_fiber_lookup _ _ _ _ _ Hfb Hq), Hfb. simpl.
    split; [reflexivity|]. rewrite decide_True by reflexivity. reflexivity.
  - rewrite dequeue_fiber_noop; [by exists fb|]. intros; congruence.
Qed.

Lemma queues_are_ext s L L' :
  (forall q, L' q = L q) -> queues_are s L -> queues_are s L'.
Proof.
  intros HE [Hseg Hnd Hback]. split.
  - intros q. rewrite HE. apply Hseg.
  - intros q. rewrite HE. apply Hnd.
  - intros f fb q. rewrite HE. apply Hback.
Qed.

Lemma dseg_hd h q p c l e : dseg h q p c l e -> c = match l with [] => e | x :: _ => Some x end.
Proof. destruct l; simpl; [auto|]. by intros [-> _]. Qed.

Lemma wakes_same_data wake s s' x :
  same_data s s' -> wakes wake s' x = wakes wake s x.
Proof. intros H. unfold wakes. by rewrite (same_data_context _ _ _ H). Qed.

(** The effect of one wake-up scan on the lists of the queues. *)
Lemma wake_scan_are wake src (P : nat -> bool) :
  src <> RunQueue ->
  forall rest s L pre fuel,
    queues_are s L -> L src = pre ++ rest -> (length rest <= fuel)%nat ->
    (forall x, wakes wake s x = P x) ->
    let s' := wake_scan fuel wake (hd_error rest) s in
    queues_are s'
      (set_list RunQueue (reverse (List.filter P rest) ++ L RunQueue)
         (set_list src (pre ++ List.filter (fun x => negb (P x)) rest) L)) /\
    same_data s s'.
Proof.
  intros Hsrc. induction rest as [|f rest IH]; intros s L pre fuel HL Hsplit Hlen HP.
  - simpl. assert (wake_scan fuel wake None s = s) as -> by (destruct fuel; reflexivity).
    split; [|apply same_data_refl].
    eapply queues_are_ext; [|exact HL]. intros q. unfold set_list.
    repeat case_decide; subst; rewrite ?Hsplit, ?app_nil_r; reflexivity.
  - simpl in Hlen. destruct fuel as [|fuel]; [lia|].
    pose proof (qa_seg _ _ HL src) as Hseg. rewrite Hsplit in Hseg.
    apply dseg_app in Hseg as (m & _ & Hseg).
    destruct Hseg as [_ (fb & Hfb & Hq & _ & Hrest)].
    apply dseg_hd in Hrest.
    assert (next fb = hd_error rest) as Hnext.
    { rewrite Hrest. destruct rest; reflexivity. }
    cbn [hd_error wake_scan]. rewrite Hfb, Hnext.
    assert (P f = wake (context fb)) as HPf.
    { rewrite <- HP. unfold wakes, context_of. rewrite Hfb. reflexivity. }
    destruct (wake (context fb)) eqn:Hw.
    + set (s1 := dequeue_fiber f s).
      set (s2 := queue_fiber f RunQueue s1).
      assert (queues_are s1 (set_list src (pre ++ rest) L)) as HL1.
      { eapply dequeue_fiber_are; eauto. }
      assert (queues_are s2
                (set_list RunQueue (f :: L RunQueue) (set_list src (pre ++ rest) L)))
        as HL2.
      { pose proof (queue_fiber_are s1 _ f RunQueue HL1
                      (dequeue_fiber_unqueued _ _ _ Hfb)) as H2.
        rewrite set_list_ne in H2 by auto. exact H2. }
      assert (same_data s s2) as Hsd.
      { eapply same_data_trans; [apply dequeue_fiber_same_data|].
        apply queue_fiber_same_data. }
      destruct (IH s2 _ pre fuel HL2) as [HL' Hsd'].
      { rewrite set_list_ne, set_list_eq by auto. reflexivity. }
      { lia. }
      { intros x. rewrite <- HP. by apply wakes_same_data. }
      split; [|eapply same_data_trans; eauto].
      eapply queues_are_ext; [|exact HL']. intros q.
      cbn [List.filter]. rewrite HPf. cbn [negb].
      rewrite reverse_cons, <- app_assoc. simpl.
      unfold set_list. repeat case_decide; subst; try congruence; reflexivity.
    + destruct (IH s L (pre ++ [f]) fuel HL) as [HL' Hsd'].
      { rewrite <- app_assoc. exact Hsplit. }
      { lia. }
      { exact HP. }
      split; [|exact Hsd'].
      eapply queues_are_ext; [|exact HL']. intros q.
      cbn [List.filter]. rewrite HPf. cbn [negb].
      unfold set_list. repeat case_decide; subst; try congruence;
        rewrite <- ?app_assoc; reflexivity.
Qed.


Lemma dseg_links h h' q p c l e :
  (forall x, x ∈ l -> fiber_links <$> h' !! x = fiber_links <$> h !! x) ->
  dseg h q p c l e -> dseg h' q p c l e.
Proof.
  revert p c. induction l as [|y l IH]; simpl; intros p c Hag; [auto|].
  intros [-> (fb & Hy & Hq & Hp & Hseg)]. split; [reflexivity|].
  pose proof (Hag y ltac:(left)) as Hy'. rewrite Hy in Hy'.
  destruct (h' !! y) as [fb'|]; simpl in Hy'; [|discriminate].
  unfold fiber_links in Hy'. injection Hy' as Hq' Hn' Hp'.
  exists fb'. rewrite Hq', Hn', Hp'. repeat split; auto.
  apply IH; [|exact Hseg]. intros x Hx. apply Hag. by right.
Qed.

Lemma same_links_are s s' L : same_links s s' -> queues_are s L -> queues_are s' L.
Proof.
  intros [Hl Hh] [Hseg Hnd Hback]. split.
  - intros q. rewrite Hh. eapply dseg_links; [|apply Hseg]. intros x _. apply Hl.
  - exact Hnd.
  - intros f fb' q Hf Hq. specialize (Hl f). rewrite Hf in Hl.
    destruct (fibers s !! f) as [fb|] eqn:Hfb; simpl in Hl; [|discriminate].
    unfold fiber_links in Hl. injection Hl as Hq' _ _.
    apply (Hback f fb q Hfb). congruence.
Qed.

Lemma on_queue_are s L x q : queues_are s L -> on_queue s x q <-> x ∈ L q.
Proof. intros HL. unfold on_queue. by rewrite (queue_members_are _ _ _ HL). Qed.

Lemma same_links_on s s' :
  queue_inv s -> same_links s s' ->
  queue_inv s' /\ forall x q, on_queue s' x q <-> on_queue s x q.
Proof.
  intros [L HL] Hsl. pose proof (same_links_are _ _ _ Hsl HL) as HL'.
  split; [by exists L|]. intros x q.
  by rewrite (on_queue_are _ _ _ _ HL), (on_queue_are _ _ _ _ HL').
Qed.

Lemma update_same_links s f g :
  (forall fb, fiber_links (g fb) = fiber_links fb) -> same_links s (update f g s).
Proof.
  intros Hg. split; [|intros q; apply head_update].
  intros x. rewrite fibers_update, lookup_alter. case_decide; [subst|reflexivity].
  destruct (fibers s !! x); simpl; [|reflexivity]. by rewrite Hg.
Qed.

Lemma queue_fiber_on s f q :
  queue_inv s -> unqueued s f ->
  queue_inv (queue_fiber f q s) /\
  forall x q', on_queue (queue_fiber f q s) x q' <->
               (x = f /\ q' = q) \/ on_queue s x q'.
Proof.
  intros [L HL] Hun. pose proof (queue_fiber_are _ _ _ q HL Hun) as HL'.
  split; [by eexists|]. intros x q'.
  rewrite (on_queue_are _ _ _ _ HL), (on_queue_are _ _ _ _ HL').
  unfold set_list. destruct (decide (q' = q)) as [->|Hne].
  - rewrite elem_of_cons. split; [intros [->|Hx]; auto|intros [[-> _]|Hx]; auto].
  - split; [auto|intros [[_ Hq]|Hx]; [contradiction|auto]].
Qed.

Lemma dequeue_fiber_on s f :
  queue_inv s ->
  queue_inv (dequeue_fiber f s) /\
  forall x q', on_queue (dequeue_fiber f s) x q' <-> x <> f /\ on_queue s x q'.
Proof.
  intros Hinv. split; [by apply dequeue_fiber_inv|].
  destruct Hinv as [L HL]. intros x q'.
  rewrite (on_queue_are _ _ _ _ HL).
  assert (forall fb, fibers s !! f = Some fb -> queue fb = None ->
            (on_queue s x q' <-> x <> f /\ x ∈ L q')) as Hnone.
  { intros fb Hfb Hq. rewrite (on_queue_are _ _ _ _ HL).
    split; [|tauto]. intros Hx. split; [|exact Hx]. intros ->.
    pose proof (queues_are_queue _ _ _ _ _ HL Hx Hfb). congruence. }
  destruct (fibers s !! f) as [fb|] eqn:Hfb.
  - destruct (queue fb) as [q|] eqn:Hq.
    + pose proof (qa_back _ _ HL _ _ _ Hfb Hq) as Hin.
      apply list_elem_of_split in Hin as (l1 & l2 & HLq).
      pose proof (dequeue_fiber_are _ _ _ _ _ _ HL HLq) as HL'.
      rewrite (on_queue_are _ _ _ _ HL').
      pose proof (qa_nodup _ _ HL q) as Hnd. rewrite HLq in Hnd.
      apply NoDup_app in Hnd as (_ & Hd & Hnd). apply NoDup_cons in Hnd as [Hf2 _].
      unfold set_list. case_decide; [subst q'|].
      * rewrite HLq, !elem_of_app, elem_of_cons. split.
        -- intros [Hx|Hx]; (split; [intros ->|tauto]); [|tauto].
           apply (Hd _ Hx). left.
        -- intros [Hne [Hx|[->|Hx]]]; tauto.
      * split; [|tauto]. intros Hx. split; [|exact Hx]. intros ->.
        pose proof (queues_are_queue _ _ _ _ _ HL Hx Hfb). congruence.
    + rewrite dequeue_fiber_noop by (intros; congruence). eauto.
  - rewrite dequeue_fiber_noop by (intros; congruence).
    rewrite (on_queue_are _ _ _ _ HL). split; [|tauto].
    intros Hx. split; [|exact Hx]. intros ->.
    destruct (dseg_elem _ _ _ _ _ _ _ (qa_seg _ _ HL q') Hx) as (fb & Hfb' & _).
    congruence.
Qed.

Lemma wake_scan_on wake src s :
  src <> RunQueue -> queue_inv s ->
  let s' := wake_scan (size (fibers s)) wake (head s src) s in
  queue_inv s' /\ same_data s s' /\
  forall x,
    (on_queue s' x RunQueue <->
       on_queue s x RunQueue \/ (on_queue s x src /\ wakes wake s x = true)) /\
    (on_queue s' x src <-> on_queue s x src /\ wakes wake s x = false) /\
    (forall q, q <> RunQueue -> q <> src -> on_queue s' x q <-> on_queue s x q).
Proof.
  intros Hsrc [L HL].
  pose proof (qa_seg _ _ HL src) as Hseg. apply dseg_hd in Hseg.
  assert (head s src = hd_error (L src)) as Hhd.
  { rewrite Hseg. destruct (L src); reflexivity. }
  destruct (wake_scan_are wake src (wakes wake s) Hsrc (L src) s L []
              (size (fibers s)) HL eq_refl (queues_are_length _ _ _ HL)
              (fun x => eq_refl)) as [HL' Hsd].
  rewrite <- Hhd in HL', Hsd. simpl. split; [by eexists|]. split; [exact Hsd|].
  intros x. rewrite !(on_queue_are _ _ _ _ HL), !(on_queue_are _ _ _ _ HL').
  rewrite set_list_eq, set_list_ne, set_list_eq by auto. simpl.
  rewrite elem_of_app, elem_of_reverse, !list_elem_of_In, !filter_In.
  rewrite negb_true_iff. split; [tauto|]. split; [tauto|].
  intros q Hq1 Hq2. rewrite (on_queue_are _ _ _ _ HL), (on_queue_are _ _ _ _ HL').
  by rewrite !set_list_ne by auto.
Qed.

End WakeFacts.

(** ** Queue exclusivity *)

Lemma two_fibers_lookup t f fb :
  fibers (two_fibers t) !! f = Some fb -> (f = 1 \/ f = 2)%nat /\ queue fb = None.
Proof.
  unfold two_fibers. simpl. intros H.
  apply lookup_insert_Some in H as [[<- <-]|[_ H]]; [auto|].
  apply lookup_insert_Some in H as [[<- <-]|[_ H]]; [auto|].
  by rewrite lookup_empty in H.
Qed.

Lemma two_fibers_inv t : queue_inv (two_fibers t).
Proof.
  exists (fun _ => []). split.
  - intros []; reflexivity.
  - intros q. apply NoDup_nil_2.
  - intros f fb q Hf Hq. apply two_fibers_lookup in Hf as [_ Hf]. congruence.
Qed.

Lemma set_current_links c s : same_links s (set_current c s).
Proof. split; [reflexivity|intros []; reflexivity]. Qed.

Lemma one_running_inv t : queue_inv (one_running t).
Proof.
  unfold one_running. eapply same_links_on; [|apply set_current_links].
  apply queue_fiber_inv; [apply two_fibers_inv|].
  eexists. split; reflexivity.
Qed.


(** ** Event delivery *)

Section EventFacts.
Implicit Types (s : scheduler) (f x c : nat) (q : queue_id).

Lemma wrap16_range (x : Z) : 0 <= wrap16 x < 2 ^ 16.
Proof. unfold wrap16. apply Z.mod_pos_bound. lia. Qed.

Lemma wrap16_small (x : Z) : 0 <= x < 2 ^ 16 -> wrap16 x = x.
Proof. intros. unfold wrap16. apply Z.mod_small. lia. Qed.

Lemma land_low16 (x : Z) : Z.land x 0xFFFF = x mod 2 ^ 16.
Proof. change 0xFFFF with (Z.ones 16). rewrite Z.land_ones by lia. reflexivity. Qed.

Lemma key_id_event_key id v : key_id (event_key id v) = wrap16 id.
Proof.
  unfold key_id, event_key. rewrite Z.land_lor_distr_l, !land_low16.
  rewrite Z.shiftl_mul_pow2 by lia. rewrite Z.mod_mul by lia.
  rewrite Z.lor_0_r. apply Z.mod_small. apply wrap16_range.
Qed.

Lemma key_value_event_key id v : key_value (event_key id v) = wrap16 v.
Proof.
  unfold key_value, event_key. rewrite Z.shiftr_lor.
  rewrite Z.shiftr_shiftl_l by lia. change (16 - 16) with 0. rewrite Z.shiftl_0_r.
  rewrite Z.shiftr_div_pow2 by lia.
  rewrite Z.div_small by apply wrap16_range.
  rewrite Z.lor_0_l, land_low16. apply Z.mod_small. apply wrap16_range.
Qed.

Lemma event_matches_spec evt k :
  event_matches evt k = true <->
  (key_id k, key_value k) = (wrap16 (source evt), wrap16 (value evt)).
Proof.
  unfold event_matches. rewrite andb_true_iff, !Z.eqb_eq.
  split; [intros [-> ->]; reflexivity|intros [= -> ->]; auto].
Qed.

Lemma on_queue_lookup s x q :
  queue_inv s -> on_queue s x q -> exists fb, fibers s !! x = Some fb /\ queue fb = Some q.
Proof. intros Hinv. destruct (queue_inv_exclusive _ Hinv x) as (_ & H & _). apply H. Qed.

Lemma wakes_event s evt x :
  wakes (event_matches evt) s x = true <->
  registration s x = Some (wrap16 (source evt), wrap16 (value evt)).
Proof.
  unfold wakes, registration. destruct (context_of s x) as [k|]; simpl.
  - rewrite event_matches_spec. split; [congruence|intros [= -> ->]; reflexivity].
  - split; discriminate.
Qed.

Lemma same_data_registration s s' x :
  same_data s s' -> registration s' x = registration s x.
Proof. intros H. unfold registration. by rewrite (same_data_context _ _ _ H). Qed.

(** Blocking the fiber [c] on queue [q] with the word [k] in its context. *)
Lemma block_on_queue s c q k fb :
  queue_inv s -> fibers s !! c = Some fb ->
  let s' := queue_fiber c q (dequeue_fiber c (update c (set_context k) s)) in
  queue_inv s' /\
  (forall x q', on_queue s' x q' <-> (x = c /\ q' = q) \/ (x <> c /\ on_queue s x q')) /\
  context_of s' c = Some k /\
  (forall x, x <> c -> context_of s' x = context_of s x) /\
  ticks s' = ticks s /\ currentFiber s' = currentFiber s.
Proof.
  intros Hinv Hfb. set (s1 := update c (set_context k) s).
  assert (same_links s s1) as Hl by (apply update_same_links; reflexivity).
  destruct (same_links_on _ _ Hinv Hl) as [Hinv1 Hon1].
  assert (fibers s1 !! c = Some (set_context k fb)) as Hc1.
  { unfold s1. rewrite fibers_update, lookup_alter_eq, Hfb. reflexivity. }
  destruct (dequeue_fiber_on s1 c Hinv1) as [Hinv2 Hon2].
  pose proof (dequeue_fiber_unqueued _ _ _ Hc1) as Hun.
  destruct (queue_fiber_on _ c q Hinv2 Hun) as [Hinv3 Hon3].
  pose proof (same_data_trans _ _ _ (dequeue_fiber_same_data s1 c)
                (queue_fiber_same_data (dequeue_fiber c s1) c q)) as Hsd.
  cbv zeta. split; [exact Hinv3|]. split; [|split; [|split]].
  - intros x q'. rewrite Hon3, Hon2, Hon1. tauto.
  - rewrite (same_data_context _ _ _ Hsd). unfold context_of. by rewrite Hc1.
  - intros x Hx. rewrite (same_data_context _ _ _ Hsd). unfold context_of, s1.
    by rewrite fibers_update, lookup_alter_ne.
  - destruct Hsd as (_ & Hc & Ht & _). split; [exact Ht|exact Hc].
Qed.

Lemma fiber_wait_enqueue_waits s c fb id v :
  queue_inv s -> currentFiber s = Some c -> fibers s !! c = Some fb ->
  let s' := fiber_wait_enqueue id v s in
  queue_inv s' /\ waits_for s' c id v /\
  (forall x q, x <> c -> on_queue s' x q <-> on_queue s x q).
Proof.
  intros Hinv Hcur Hfb. unfold fiber_wait_enqueue. rewrite Hcur.
  destruct (block_on_queue s c WaitQueue (event_key id v) fb Hinv Hfb)
    as (Hinv' & Hon & Hctx & _).
  cbv zeta. split; [exact Hinv'|]. split.
  - split; [apply Hon; auto|]. unfold registration. rewrite Hctx. simpl.
    by rewrite key_id_event_key, key_value_event_key.
  - intros x q Hx. rewrite Hon. tauto.
Qed.

End EventFacts.

(** C3: [scheduler_event] for the event (X, Y) moves to the run queue the
    fibers that wait on exactly (X, Y), and no other fiber: a fiber is on
    the run queue afterwards iff it was before or waited on (X, Y); the
    other waiting fibers, among them those waiting on (X, Z) with Z <> Y,
    are still on the wait queue; the sleep queue and the registrations are
    as before.  A fiber that called [fiber_wait_for_event (X, Y)] waits on
    (X, Y). *)
Theorem scheduler_event_exact (s : scheduler) (X Y : Z) :
  queue_inv s -> 0 <= X < 2 ^ 16 -> 0 <= Y < 2 ^ 16 ->
  let s' := scheduler_event (mkEvent X Y) s in
  queue_inv s' /\
  (forall f, on_queue s' f RunQueue <-> on_queue s f RunQueue \/ waits_for s f X Y) /\
  (forall f, on_queue s' f WaitQueue <-> on_queue s f WaitQueue /\ ~ waits_for s f X Y) /\
  (forall f, on_queue s' f SleepQueue <-> on_queue s f SleepQueue) /\
  (forall f Z, 0 <= Z < 2 ^ 16 -> Z <> Y -> waits_for s f X Z ->
     on_queue s' f WaitQueue /\ ~ on_queue s' f RunQueue) /\
  (forall f, registration s' f = registration s f) /\
  (forall s0 c fb, queue_inv s0 -> currentFiber s0 = Some c ->
     fibers s0 !! c = Some fb -> waits_for (fiber_wait_enqueue X Y s0) c X Y).
Proof.
  intros Hinv HX HY. unfold scheduler_event.
  change (waitQueue s) with (head s WaitQueue).
  destruct (wake_scan_on (event_matches (mkEvent X Y)) WaitQueue s
              ltac:(discriminate) Hinv) as (Hinv' & Hsd & Hon).
  set (s' := wake_scan _ _ _ s) in *. cbv zeta.
  assert (forall f, on_queue s f WaitQueue ->
            (wakes (event_matches (mkEvent X Y)) s f = false <-> ~ waits_for s f X Y))
    as Hnot.
  { intros f Hf. rewrite <- not_true_iff_false, wakes_event. simpl.
    unfold waits_for. tauto. }
  assert (forall f, on_queue s' f WaitQueue <->
                    on_queue s f WaitQueue /\ ~ waits_for s f X Y) as Hwait.
  { intros f. destruct (Hon f) as (_ & H2 & _). rewrite H2.
    split; intros [Hf Hw]; (split; [exact Hf|]); by apply (Hnot f Hf). }
  assert (forall f, on_queue s' f RunQueue <->
                    on_queue s f RunQueue \/ waits_for s f X Y) as Hrun.
  { intros f. destruct (Hon f) as (H1 & _). rewrite H1, wakes_event. simpl.
    unfold waits_for. tauto. }
  split; [exact Hinv'|]. split; [exact Hrun|]. split; [exact Hwait|].
  split; [|split; [|split]].
  - intros f. destruct (Hon f) as (_ & _ & H3). by apply H3.
  - intros f Z HZ HZY [Hf Hreg].
    assert (~ waits_for s f X Y) as Hn.
    { intros [_ Hreg']. assert (wrap16 Z = wrap16 Y) as Heq by congruence.
      rewrite !wrap16_small in Heq by lia. contradiction. }
    split; [apply Hwait; auto|].
    rewrite Hrun. intros [Hr|Hw]; [|contradiction].
    pose proof (proj1 (queue_inv_exclusive _ Hinv f) _ _ Hf Hr). discriminate.
  - intros f. by apply same_data_registration.
  - intros s0 c fb H0 Hc Hfb.
    by destruct (fiber_wait_enqueue_waits s0 c fb X Y H0 Hc Hfb) as (_ & H & _).
Qed.

Lemma scheduler_event_exact_witness :
  let s := fiber_wait_enqueue 7 3 (one_running 0) in
  queue_inv s /\
  on_queue (scheduler_event (mkEvent 7 3) s) 1%nat RunQueue /\
  on_queue (scheduler_event (mkEvent 7 4) s) 1%nat WaitQueue.
Proof.
  assert (fibers (one_running 0) !! 1%nat
          = Some (set_links (Some RunQueue) None None (fresh_fiber 0x20001000))) as Hfb
    by (vm_compute; reflexivity).
  destruct (fiber_wait_enqueue_waits (one_running 0) 1%nat _ 7 3
              (one_running_inv 0) eq_refl Hfb) as (Hinv & Hw & _).
  cbv zeta. split; [exact Hinv|]. split.
  - pose proof (scheduler_event_exact _ 7 3 Hinv ltac:(lia) ltac:(lia))
      as (_ & Hrun & _).
    apply Hrun. right. exact Hw.
  - pose proof (scheduler_event_exact _ 7 4 Hinv ltac:(lia) ltac:(lia))
      as (_ & _ & _ & _ & Hstay & _).
    apply (Hstay 1%nat 3); [lia|lia|exact Hw].
Defined.

(** ** Stack virtualization *)

Section StackFacts.
Context {P : Platform}.
Variable grow : Z -> Z -> Z.

Lemma wrap32_offset (b n : Z) : Word.wrap32 (Word.wrap32 (b + n) - b) = Word.wrap32 n.
Proof.
  unfold Word.wrap32. rewrite Zminus_mod_idemp_l. f_equal. lia.
Qed.

Lemma buffer_size_set_stack bottom size fb :
  0 <= size < 2 ^ 32 ->
  buffer_size (set_stack (Word.wrap32 (bottom + size)) bottom fb) = size.
Proof.
  intros Hs. unfold buffer_size. simpl. rewrite wrap32_offset. by apply wrap32_small.
Qed.

Lemma buffer_size_range fb : 0 <= buffer_size fb < 2 ^ 32.
Proof. apply wrap32_range. Qed.

Lemma stack_depth_range m : 0 <= stack_depth m < 2 ^ 32.
Proof. apply wrap32_range. Qed.

End StackFacts.



(** ** Scheduler core *)

Section ScheduleFacts.
Context {P : Platform}.
Variable grow : Z -> Z -> Z.

Lemma switch_to_trace next st :
  fst (switch_to grow next st) = [] \/
  exists cur, fst (switch_to grow next st) = [Resize next; Swap cur next].
Proof.
  unfold switch_to. destruct (currentFiber (fst st)) as [cur|]; [|by left].
  case_decide; [by left|].
  destruct (fibers (fst (verify_stack_size grow next st)) !! cur),
    (fibers (fst (verify_stack_size grow next st)) !! next); try by left.
  destruct (swap_context _ _ _ _ _). right. by exists cur.
Qed.

Lemma switch_to_no_idle next st : Idle ∉ fst (switch_to grow next st).
Proof.
  destruct (switch_to_trace next st) as [->|[cur ->]].
  - apply not_elem_of_nil.
  - intros H. apply elem_of_cons in H as [H|H]; [discriminate|].
    apply elem_of_cons in H as [H|H]; [discriminate|]. by apply not_elem_of_nil in H.
Qed.

Lemma schedule_runnable irqs st next :
  runQueue (fst st) = Some next ->
  schedule grow irqs st =
  mkResult _ (fst (switch_to grow next st)) (snd (switch_to grow next st)) true.
Proof.
  intros H. destruct irqs; simpl; rewrite H; by destruct (switch_to _ _ _).
Qed.

Lemma schedule_idle i irqs st :
  runQueue (fst st) = None ->
  schedule grow (i :: irqs) st = after_idle (schedule grow irqs (idle_task i st)).
Proof. intros H. simpl. by rewrite H. Qed.

Lemma schedule_starved st :
  runQueue (fst st) = None -> schedule grow [] st = mkResult _ [] st false.
Proof. intros H. simpl. by rewrite H. Qed.

End ScheduleFacts.




(** Fiber 1 sleeps for 12 ms with nothing else to run: [schedule] idles
    through two ticks and then resumes a fiber. *)
Lemma schedule_idles_example :
  let r := fiber_sleep (P := sim_platform) exact_fit 12 [Tick; Other; Tick; Tick]
             (one_running 0, sim_machine 64) in
  trace r = [Idle; Idle; Idle] /\ resumed r = true /\
  currentFiber (fst (final r)) = Some 1%nat /\ ticks (fst (final r)) = 12.
Proof. vm_compute. repeat split. Qed.

(** ** The system as a whole: wake monotonicity *)

Section SystemFacts.
Context {P : Platform}.
Variable grow : Z -> Z -> Z.
Implicit Types (s : scheduler) (f x c : nat) (q : queue_id) (y : system).

Lemma same_data_allocated s s' x :
  same_data s s' -> is_Some (fibers s !! x) -> is_Some (fibers s' !! x).
Proof.
  intros Hsd [fb Hfb]. destruct (same_data_lookup _ _ _ _ Hsd Hfb) as (fb' & H & _).
  by exists fb'.
Qed.

Lemma set_ticks_links t s : same_links s (set_ticks t s).
Proof. split; [reflexivity|intros []; reflexivity]. Qed.

Lemma on_queue_exclusive s x q q' :
  queue_inv s -> on_queue s x q -> on_queue s x q' -> q = q'.
Proof. intros Hinv. apply (queue_inv_exclusive _ Hinv x). Qed.

(** The tick handler. *)
Lemma scheduler_tick_on s :
  queue_inv s ->
  let s' := scheduler_tick s in
  queue_inv s' /\
  ticks s' = Word.wrap32 (ticks s + FIBER_TICK_PERIOD_MS) /\
  currentFiber s' = currentFiber s /\
  (forall x, is_Some (fibers s !! x) -> is_Some (fibers s' !! x)) /\
  (forall x, context_of s' x = context_of s x) /\
  (forall x, on_queue s' x RunQueue <->
             on_queue s x RunQueue \/
             (on_queue s x SleepQueue /\
              exists w, context_of s x = Some w /\ w <= ticks s')) /\
  (forall x, on_queue s' x SleepQueue <->
             on_queue s x SleepQueue /\
             exists w, context_of s x = Some w /\ ticks s' < w) /\
  (forall x, on_queue s' x WaitQueue <-> on_queue s x WaitQueue).
Proof.
  intros Hinv. unfold scheduler_tick.
  set (T := Word.wrap32 (ticks s + FIBER_TICK_PERIOD_MS)).
  set (s1 := set_ticks T s).
  destruct (same_links_on _ _ Hinv (set_ticks_links T s)) as [Hinv1 Hon1].
  fold s1 in Hinv1, Hon1.
  change (sleepQueue s1) with (head s1 SleepQueue).
  change (ticks s1) with T.
  destruct (wake_scan_on (wake_time_passed T) SleepQueue s1 ltac:(discriminate) Hinv1)
    as (Hinv' & Hsd & Hon).
  set (s' := wake_scan _ _ _ s1) in *. cbv zeta.
  assert (ticks s' = T) as HT by (destruct Hsd as (_ & _ & -> & _); reflexivity).
  assert (forall x, context_of s' x = context_of s x) as Hctx.
  { intros x. by rewrite (same_data_context _ _ _ Hsd). }
  assert (forall x, on_queue s x SleepQueue ->
            exists w, context_of s x = Some w /\
                      wakes (wake_time_passed T) s1 x = (w <=? T)) as Hw.
  { intros x Hx. destruct (on_queue_lookup _ _ _ Hinv Hx) as (fb & Hfb & _).
    exists (context fb). unfold wakes, context_of. change (fibers s1) with (fibers s).
    rewrite Hfb. split; reflexivity. }
  split; [exact Hinv'|]. split; [exact HT|]. split.
  { destruct Hsd as (_ & -> & _). reflexivity. }
  split; [intros x Hx; apply (same_data_allocated _ _ _ Hsd); exact Hx|].
  split; [exact Hctx|].
  rewrite HT. split; [|split].
  - intros x. destruct (Hon x) as (H1 & _). rewrite H1, !Hon1. split.
    + intros [Hr|[Hs Hwk]]; [by left|right]. split; [exact Hs|].
      destruct (Hw x Hs) as (w & Hc & Hwx). exists w. split; [exact Hc|].
      rewrite Hwx in Hwk. by apply Z.leb_le.
    + intros [Hr|[Hs (w & Hc & Hle)]]; [by left|right]. split; [exact Hs|].
      destruct (Hw x Hs) as (w' & Hc' & ->). assert (w' = w) as -> by congruence.
      by apply Z.leb_le.
  - intros x. destruct (Hon x) as (_ & H2 & _). rewrite H2, !Hon1. split.
    + intros [Hs Hwk]. split; [exact Hs|].
      destruct (Hw x Hs) as (w & Hc & Hwx). exists w. split; [exact Hc|].
      rewrite Hwx in Hwk. apply Z.leb_gt in Hwk. lia.
    + intros [Hs (w & Hc & Hlt)]. split; [exact Hs|].
      destruct (Hw x Hs) as (w' & Hc' & ->). assert (w' = w) as -> by congruence.
      apply Z.leb_gt. lia.
  - intros x. destruct (Hon x) as (_ & _ & H3).
    rewrite (H3 WaitQueue) by discriminate. apply Hon1.
Qed.

(** Event delivery leaves the sleep queue alone. *)
Lemma scheduler_event_on evt s :
  queue_inv s ->
  let s' := scheduler_event evt s in
  queue_inv s' /\ same_data s s' /\
  (forall x, on_queue s x RunQueue -> on_queue s' x RunQueue) /\
  (forall x, on_queue s' x SleepQueue <-> on_queue s x SleepQueue).
Proof.
  intros Hinv. unfold scheduler_event. change (waitQueue s) with (head s WaitQueue).
  destruct (wake_scan_on (event_matches evt) WaitQueue s ltac:(discriminate) Hinv)
    as (Hinv' & Hsd & Hon).
  cbv zeta. split; [exact Hinv'|]. split; [exact Hsd|]. split.
  - intros x Hx. destruct (Hon x) as (H1 & _). apply H1. by left.
  - intros x. destruct (Hon x) as (_ & _ & H3). apply H3; discriminate.
Qed.

(** A fiber that is not yet known to the scheduler joins the run queue. *)
Lemma spawn_on regs s m :
  queue_inv s ->
  let f := fst (spawn regs (s, m)) in
  let s' := fst (snd (spawn regs (s, m))) in
  fibers s !! f = None /\
  queue_inv s' /\
  currentFiber s' = currentFiber s /\ ticks s' = ticks s /\
  (forall x q, on_queue s' x q <-> (x = f /\ q = RunQueue) \/ on_queue s x q) /\
  (forall x, x <> f -> context_of s' x = context_of s x) /\
  (forall x, is_Some (fibers s !! x) -> is_Some (fibers s' !! x)) /\
  (exists fb, fibers s' !! f = Some fb /\ tcb fb = regs /\ flags fb = 0 /\
              buffer_size fb = FIBER_STACK_SIZE).
Proof.
  intros Hinv. unfold spawn. cbn [fst snd].
  destruct (malloc FIBER_STACK_SIZE m) as [bottom m1] eqn:Hm. cbn [fst snd].
  set (f := fresh (dom (fibers s))).
  set (fb := mkFiber _ bottom regs 0 0 None None None).
  set (s1 := set_fibers (<[f := fb]> (fibers s)) s).
  assert (fibers s !! f = None) as Hfresh.
  { apply not_elem_of_dom. apply is_fresh. }
  assert (queue_inv s1 /\ forall x q, on_queue s1 x q <-> on_queue s x q) as [Hinv1 Hon1].
  { destruct Hinv as [L HL]. pose proof HL as [Hseg Hnd Hback].
    assert (queues_are s1 L) as HL1.
    { split.
      - intros q. replace (head s1 q) with (head s q) by (destruct q; reflexivity).
        eapply dseg_agree; [|apply Hseg]. intros x Hx.
        destruct (dseg_elem _ _ _ _ _ _ _ (Hseg q) Hx) as (xb & Hxb & _).
        unfold s1. simpl. apply lookup_insert_ne. intros <-. congruence.
      - exact Hnd.
      - intros x xb q Hx Hq. unfold s1 in Hx. simpl in Hx.
        apply lookup_insert_Some in Hx as [[<- <-]|[Hne Hx]]; [discriminate|].
        eapply Hback; eauto. }
    split; [by exists L|]. intros x q.
    by rewrite (on_queue_are _ _ _ _ HL), (on_queue_are _ _ _ _ HL1). }
  assert (fibers s1 !! f = Some fb) as Hf1.
  { unfold s1. simpl. apply lookup_insert_eq. }
  assert (unqueued s1 f) as Hun by (exists fb; auto).
  destruct (queue_fiber_on s1 f RunQueue Hinv1 Hun) as [Hinv2 Hon2].
  pose proof (queue_fiber_same_data s1 f RunQueue) as Hsd.
  split; [exact Hfresh|]. split; [exact Hinv2|].
  split; [destruct Hsd as (_ & -> & _); reflexivity|].
  split; [destruct Hsd as (_ & _ & -> & _); reflexivity|].
  split; [|split; [|split]].
  - intros x q. rewrite Hon2, Hon1. reflexivity.
  - intros x Hx. rewrite (same_data_context _ _ _ Hsd). unfold context_of, s1. simpl.
    by rewrite lookup_insert_ne.
  - intros x Hx. apply (same_data_allocated _ _ _ Hsd). unfold s1. simpl.
    destruct (decide (f = x)) as [->|Hne]; [rewrite lookup_insert_eq; eauto|].
    by rewrite lookup_insert_ne.
  - destruct (same_data_lookup _ _ _ _ Hsd Hf1) as (fb' & Hfb' & Hd).
    exists fb'. split; [exact Hfb'|]. unfold fiber_data in Hd.
    injection Hd as Ht Hb Hr _ Hfl. split; [exact Hr|]. split; [exact Hfl|].
    unfold buffer_size. rewrite Ht, Hb. simpl. rewrite wrap32_offset.
    reflexivity.
Qed.

(** An assignment to the data of a fiber leaves the queues alone. *)
Lemma update_data_on s x g :
  (forall fb, fiber_links (g fb) = fiber_links fb) ->
  queue_inv s ->
  queue_inv (update x g s) /\
  (forall z q, on_queue (update x g s) z q <-> on_queue s z q) /\
  (forall z, is_Some (fibers s !! z) -> is_Some (fibers (update x g s) !! z)).
Proof.
  intros Hg Hinv.
  destruct (same_links_on _ _ Hinv (update_same_links s x g Hg)) as [H1 H2].
  split; [exact H1|]. split; [exact H2|].
  intros z [zb Hz]. rewrite fibers_update, lookup_alter. case_decide; [subst|eauto].
  rewrite Hz. simpl. eauto.
Qed.

Lemma update_context s x g z :
  (forall fb, context (g fb) = context fb) ->
  context_of (update x g s) z = context_of s z.
Proof.
  intros Hg. unfold context_of. rewrite fibers_update, lookup_alter.
  case_decide; [subst|reflexivity].
  destruct (fibers s !! z); simpl; [|reflexivity]. by rewrite Hg.
Qed.

Lemma verify_stack_size_on f s m :
  queue_inv s ->
  let s' := fst (verify_stack_size grow f (s, m)) in
  queue_inv s' /\
  (forall z q, on_queue s' z q <-> on_queue s z q) /\
  (forall z, is_Some (fibers s !! z) -> is_Some (fibers s' !! z)) /\
  (forall z, context_of s' z = context_of s z) /\
  currentFiber s' = currentFiber s /\ ticks s' = ticks s.
Proof.
  intros Hinv. unfold verify_stack_size. cbn [fst snd].
  destruct (fibers s !! f) as [fb|]; [|cbn [fst]; tauto].
  destruct (_ <? _); [|cbn [fst]; tauto].
  destruct (malloc _ _) as [bottom m2]. cbn [fst].
  destruct (update_data_on s f (set_stack (Word.wrap32 (bottom
              + grow (buffer_size fb) (stack_depth m))) bottom)
              ltac:(reflexivity) Hinv) as (H1 & H2 & H3).
  split; [exact H1|]. split; [exact H2|]. split; [exact H3|].
  split; [|split; reflexivity].
  intros z. apply update_context. reflexivity.
Qed.

Lemma switch_to_on next s m c :
  queue_inv s -> currentFiber s = Some c -> is_Some (fibers s !! c) ->
  on_queue s next RunQueue ->
  let s' := fst (snd (switch_to grow next (s, m))) in
  queue_inv s' /\
  (forall z q, on_queue s' z q <-> on_queue s z q) /\
  (forall z, is_Some (fibers s !! z) -> is_Some (fibers s' !! z)) /\
  (forall z, context_of s' z = context_of s z) /\
  currentFiber s' = Some next /\ ticks s' = ticks s.
Proof.
  intros Hinv Hcur Hc Hnext. unfold switch_to. cbn [fst snd]. rewrite Hcur.
  destruct (decide (c = next)) as [->|Hne]; [cbn [fst snd]; tauto|].
  destruct (verify_stack_size_on next s m Hinv) as (H1 & H2 & H3 & H4 & H5 & H6).
  destruct (on_queue_lookup _ _ _ Hinv Hnext) as (nb & Hnb & _).
  destruct (H3 c Hc) as [cb' Hcb'].
  destruct (H3 next ltac:(eauto)) as [nb' Hnb'].
  cbv zeta in Hcb', Hnb'. rewrite Hcb', Hnb'.
  destruct (swap_context _ _ _ _ _) as [saved m2]. cbn [fst snd].
  set (s1 := fst (verify_stack_size grow next (s, m))) in *.
  destruct (update_data_on s1 c (set_tcb saved) ltac:(reflexivity) H1) as (G1 & G2 & G3).
  destruct (same_links_on _ _ G1 (set_current_links (Some next) (update c (set_tcb saved) s1)))
    as [K1 K2].
  split; [exact K1|]. split; [|split; [|split; [|split]]].
  - intros z q. rewrite K2, G2. apply H2.
  - intros z Hz. apply (G3 z), H3, Hz.
  - intros z. unfold context_of at 1. simpl.
    change (context_of (update c (set_tcb saved) s1) z = context_of s z).
    rewrite update_context by reflexivity. apply H4.
  - reflexivity.
  - exact H6.
Qed.

Lemma head_on_queue s q x : queue_inv s -> head s q = Some x -> on_queue s x q.
Proof.
  intros [L HL] Hh. rewrite (on_queue_are _ _ _ _ HL).
  pose proof (qa_seg _ _ HL q) as Hseg. rewrite Hh in Hseg.
  destruct (L q); simpl in Hseg; [discriminate|].
  destruct Hseg as [[= ->] _]. left.
Qed.

Lemma count_ticks_nonneg steps : 0 <= count_ticks steps.
Proof.
  induction steps as [|a steps IH]; simpl; [lia|].
  destruct a as [[]| | | | |]; lia.
Qed.

(** Blocking the running fiber leaves a sleeping fiber asleep. *)
Lemma block_current_keeps y f w q k :
  system_inv y -> in_schedule y = false -> asleep (sched y) f w ->
  match currentFiber (sched y) with
  | None => True
  | Some c =>
      let s' := queue_fiber c q (dequeue_fiber c (update c (set_context k) (sched y))) in
      system_inv (mkSystem s' (mach y) true) /\ asleep s' f w /\
      ticks s' = ticks (sched y)
  end.
Proof.
  intros (Hinv & c & Hcur & [cb Hcb] & Hrun) Hmode [Hf Hw]. rewrite Hcur.
  specialize (Hrun Hmode).
  assert (f <> c) as Hne.
  { intros ->. pose proof (on_queue_exclusive _ _ _ _ Hinv Hf Hrun). discriminate. }
  destruct (block_on_queue _ c q k cb Hinv Hcb) as (Hinv' & Hon & Hctx & Hoth & Ht & Hc').
  cbv zeta. split; [|split; [|exact Ht]].
  - split; [exact Hinv'|]. exists c. simpl. split; [congruence|].
    split; [|discriminate].
    assert (on_queue (queue_fiber c q (dequeue_fiber c (update c (set_context k) (sched y)))) c q)
      as Hcq by (apply Hon; auto).
    destruct (on_queue_lookup _ _ _ Hinv' Hcq) as (fb & Hfb & _). eauto.
  - split; [apply Hon; auto|]. rewrite Hoth by auto. exact Hw.
Qed.

(** One step of the system, seen from a sleeping fiber. *)
Lemma exec_keeps a y y' f w :
  exec grow a y = Some y' -> system_inv y -> asleep (sched y) f w ->
  system_inv y' /\
  match a with
  | Interrupt Tick =>
      ticks (sched y') = Word.wrap32 (ticks (sched y) + FIBER_TICK_PERIOD_MS) /\
      (w <= ticks (sched y') -> on_queue (sched y') f RunQueue) /\
      (ticks (sched y') < w -> asleep (sched y') f w)
  | _ => ticks (sched y') = ticks (sched y) /\ asleep (sched y') f w
  end.
Proof.
  intros Hex Hsys Hsl. pose proof Hsys as (Hinv & c & Hcur & Hc & Hrun).
  pose proof Hsl as [Hf Hw].
  destruct a as [[|evt|]|t|id v| |entry_fn completion_fn|]; cbn [exec deliver] in Hex.
  - (* tick *)
    injection Hex as <-. unfold system_inv. cbn [sched mach in_schedule].
    destruct (scheduler_tick_on _ Hinv) as (H1 & H2 & H3 & H4 & H5 & H6 & H7 & _).
    split; [|split; [exact H2|split]].
    + split; [exact H1|]. exists c. split; [congruence|]. split; [auto|].
      intros Hm. apply H6. left. auto.
    + intros Hle. apply H6. right. eauto.
    + intros Hlt. split; [apply H7; eauto|]. by rewrite H5.
  - (* event *)
    injection Hex as <-. unfold system_inv. cbn [sched mach in_schedule].
    destruct (scheduler_event_on evt _ Hinv) as (H1 & Hsd & H3 & H4).
    split; [|split].
    + split; [exact H1|]. exists c. pose proof Hsd as (_ & Hc' & _).
      split; [congruence|]. split; [|auto].
      apply (same_data_allocated (sched y)); [exact Hsd|exact Hc].
    + by destruct Hsd as (_ & _ & -> & _).
    + split; [by apply H4|]. by rewrite (same_data_context _ _ _ Hsd).
  - (* another interrupt *)
    injection Hex as <-. unfold system_inv. cbn [sched mach in_schedule]. split; [exact Hsys|]. auto.
  - (* fiber_sleep *)
    destruct (in_schedule y) eqn:Hm; [discriminate|]. injection Hex as <-.
    pose proof (block_current_keeps y f w SleepQueue
                  (Word.wrap32 (ticks (sched y) + t)) Hsys Hm Hsl) as H.
    unfold fiber_sleep_enqueue. rewrite Hcur in *. cbn [sched].
    destruct H as (Ha & Hb & Ht). auto.
  - (* fiber_wait_for_event *)
    destruct (in_schedule y) eqn:Hm; [discriminate|]. injection Hex as <-.
    pose proof (block_current_keeps y f w WaitQueue (event_key id v) Hsys Hm Hsl) as H.
    unfold fiber_wait_enqueue. rewrite Hcur in *. cbn [sched].
    destruct H as (Ha & Hb & Ht). auto.
  - (* schedule *)
    destruct (in_schedule y) eqn:Hm; [discriminate|]. injection Hex as <-. unfold system_inv. cbn [sched mach in_schedule].
    split; [|auto]. split; [exact Hinv|]. exists c. cbn [sched in_schedule]. split; [exact Hcur|].
    split; [exact Hc|discriminate].
  - (* create_fiber *)
    destruct (in_schedule y) eqn:Hm; [discriminate|]. injection Hex as <-.
    unfold create_fiber, system_inv. cbn [sched mach in_schedule].
    set (regs := start_context _ _ _ _).
    destruct (spawn_on regs (sched y) (mach y) Hinv)
      as (Hfresh & H1 & H2 & H3 & H4 & H5 & H6 & _).
    cbv zeta in *. split; [|split; [exact H3|split]].
    + split; [exact H1|]. exists c. cbn [sched in_schedule].
      split; [congruence|]. split; [auto|]. intros _. apply H4. right. auto.
    + apply H4. right. exact Hf.
    + rewrite H5; [exact Hw|]. intros ->.
      destruct (on_queue_lookup _ _ _ Hinv Hf) as (fb & Hfb & _). congruence.
  - (* a turn of the scheduler *)
    destruct (in_schedule y) eqn:Hm; [|discriminate].
    destruct (runQueue (sched y)) as [next|] eqn:Hq; injection Hex as <-.
    + unfold system_inv. cbn [sched mach in_schedule].
      assert (on_queue (sched y) next RunQueue) as Hnext.
      { apply head_on_queue; [exact Hinv|exact Hq]. }
      destruct (switch_to_on next (sched y) (mach y) c Hinv Hcur Hc Hnext)
        as (H1 & H2 & H3 & H4 & H5 & H6).
      cbv zeta in *. split; [|split; [exact H6|split]].
      * split; [exact H1|]. exists next. cbn [sched in_schedule].
        split; [exact H5|]. split; [|intros _; by apply H2].
        apply H3. destruct (on_queue_lookup _ _ _ Hinv Hnext) as (nb & Hnb & _). eauto.
      * by apply H2.
      * by rewrite H4.
    + unfold system_inv. cbn [sched mach in_schedule]. split; [|auto]. split; [exact Hinv|]. exists c. simpl.
      split; [exact Hcur|]. split; [exact Hc|discriminate].
Qed.

(** A sleeping fiber stays asleep as long as the counter is below its
    wake time. *)
Lemma exec_all_keeps f w steps :
  forall y yN,
    exec_all grow steps y = Some yN -> system_inv y -> asleep (sched y) f w ->
    0 <= ticks (sched y) -> w <= 2 ^ 32 ->
    ticks (sched y) + FIBER_TICK_PERIOD_MS * count_ticks steps < w ->
    system_inv yN /\ asleep (sched yN) f w /\
    ticks (sched yN) = ticks (sched y) + FIBER_TICK_PERIOD_MS * count_ticks steps.
Proof.
  induction steps as [|a steps IH]; intros y yN Hex Hsys Hsl H0 Hw Hlt.
  - simpl in *. injection Hex as <-. split; [exact Hsys|]. split; [exact Hsl|lia].
  - simpl in Hex. destruct (exec grow a y) as [y1|] eqn:Ha; [|discriminate].
    destruct (exec_keeps a y y1 f w Ha Hsys Hsl) as [Hsys1 Hstep].
    pose proof (count_ticks_nonneg steps) as Hn. unfold FIBER_TICK_PERIOD_MS in *.
    assert (count_ticks (a :: steps)
            = (match a with Interrupt Tick => 1 | _ => 0 end) + count_ticks steps) as Hc.
    { destruct a as [[]| | | | |]; simpl; lia. }
    rewrite Hc in *.
    assert (ticks (sched y1)
            = ticks (sched y) + 6 * match a with Interrupt Tick => 1 | _ => 0 end
            /\ asleep (sched y1) f w) as [Ht1 Hsl1].
    { destruct a as [[]| | | | |]; cbv beta iota in Hlt |- *;
        try (destruct Hstep as [-> H]; split; [lia|exact H]).
      destruct Hstep as (Ht & _ & Hkeep).
      rewrite wrap32_small in Ht by lia. split; [lia|]. apply Hkeep. lia. }
    destruct (IH y1 yN Hex Hsys1 Hsl1) as (H1 & H2 & H3);
      [destruct a as [[]| | | | |]; lia|lia|destruct a as [[]| | | | |]; lia|].
    split; [exact H1|]. split; [exact H2|]. destruct a as [[]| | | | |]; lia.
Qed.

End SystemFacts.


Lemma sim_system_inv t depth : system_inv (sim_system (one_running t) depth).
Proof.
  split; [apply one_running_inv|]. exists 1%nat.
  split; [reflexivity|]. split; [eexists; vm_compute; reflexivity|].
  intros _. unfold on_queue. vm_compute. left.
Qed.



(** ** Queue exclusivity at every step *)

Section ReachFacts.
Context {P : Platform}.
Variable grow : Z -> Z -> Z.
Implicit Types (s : scheduler) (f x c : nat) (q : queue_id) (y : system).

Lemma no_fibers_inv : queue_inv no_fibers.
Proof.
  exists (fun _ => []). split.
  - intros []; reflexivity.
  - intros q. apply NoDup_nil_2.
  - intros f fb q Hf. unfold no_fibers in Hf. simpl in Hf. by rewrite lookup_empty in Hf.
Qed.

Lemma booted_inv m : system_inv (booted m).
Proof.
  unfold booted, scheduler_init, system_inv. cbn [sched mach in_schedule fst snd].
  destruct (spawn_on zero_tcb no_fibers m no_fibers_inv)
    as (_ & Hinv & _ & _ & Hon & _ & _ & (fb & Hfb & _)).
  cbv zeta in *.
  destruct (same_links_on _ _ Hinv
              (set_current_links (Some (fst (spawn zero_tcb (no_fibers, m))))
                 (fst (snd (spawn zero_tcb (no_fibers, m)))))) as [Hinv' Hon'].
  split; [exact Hinv'|]. eexists. split; [reflexivity|]. split.
  - exists fb. exact Hfb.
  - intros _. apply Hon', Hon. auto.
Qed.

(** Blocking the running fiber keeps the invariant. *)
Lemma block_current_inv y q k c :
  system_inv y -> currentFiber (sched y) = Some c ->
  system_inv (mkSystem (queue_fiber c q (dequeue_fiber c (update c (set_context k) (sched y))))
                (mach y) true).
Proof.
  intros (Hinv & c' & Hcur & [cb Hcb] & _) Hc. assert (c' = c) as -> by congruence.
  destruct (block_on_queue _ c q k cb Hinv Hcb) as (Hinv' & Hon & _ & _ & _ & Hc').
  split; [exact Hinv'|]. exists c. cbn [sched in_schedule].
  split; [congruence|]. split; [|discriminate].
  assert (on_queue (queue_fiber c q (dequeue_fiber c (update c (set_context k) (sched y)))) c q)
    as Hcq by (apply Hon; auto).
  destruct (on_queue_lookup _ _ _ Hinv' Hcq) as (fb & Hfb & _). eauto.
Qed.

(** Every step of the system keeps the invariant. *)
Lemma exec_inv a y y' : exec grow a y = Some y' -> system_inv y -> system_inv y'.
Proof.
  intros Hex Hsys. pose proof Hsys as (Hinv & c & Hcur & Hc & Hrun).
  destruct a as [[|evt|]|t|id v| |entry_fn completion_fn|]; cbn [exec deliver] in Hex.
  - injection Hex as <-. unfold system_inv. cbn [sched mach in_schedule].
    destruct (scheduler_tick_on _ Hinv) as (H1 & _ & H3 & H4 & _ & H6 & _).
    split; [exact H1|]. exists c. split; [congruence|]. split; [auto|].
    intros Hm. apply H6. left. auto.
  - injection Hex as <-. unfold system_inv. cbn [sched mach in_schedule].
    destruct (scheduler_event_on evt _ Hinv) as (H1 & Hsd & H3 & _).
    split; [exact H1|]. exists c. pose proof Hsd as (_ & Hc' & _).
    split; [congruence|]. split; [|auto].
    apply (same_data_allocated (sched y)); [exact Hsd|exact Hc].
  - injection Hex as <-. exact Hsys.
  - destruct (in_schedule y) eqn:Hm; [discriminate|]. injection Hex as <-.
    unfold fiber_sleep_enqueue. rewrite Hcur. by apply block_current_inv.
  - destruct (in_schedule y) eqn:Hm; [discriminate|]. injection Hex as <-.
    unfold fiber_wait_enqueue. rewrite Hcur. by apply block_current_inv.
  - destruct (in_schedule y) eqn:Hm; [discriminate|]. injection Hex as <-.
    split; [exact Hinv|]. exists c. cbn [sched in_schedule]. split; [exact Hcur|].
    split; [exact Hc|discriminate].
  - destruct (in_schedule y) eqn:Hm; [discriminate|]. injection Hex as <-.
    unfold create_fiber, system_inv. cbn [sched mach in_schedule].
    set (regs := start_context _ _ _ _).
    destruct (spawn_on regs (sched y) (mach y) Hinv)
      as (_ & H1 & H2 & _ & H4 & _ & H6 & _).
    cbv zeta in *. split; [exact H1|]. exists c.
    split; [congruence|]. split; [auto|]. intros _. apply H4. right. auto.
  - destruct (in_schedule y) eqn:Hm; [|discriminate].
    destruct (runQueue (sched y)) as [next|] eqn:Hq; injection Hex as <-.
    + unfold system_inv. cbn [sched mach in_schedule].
      assert (on_queue (sched y) next RunQueue) as Hnext.
      { apply head_on_queue; [exact Hinv|exact Hq]. }
      destruct (switch_to_on grow next (sched y) (mach y) c Hinv Hcur Hc Hnext)
        as (H1 & H2 & H3 & _ & H5 & _).
      cbv zeta in *. split; [exact H1|]. exists next.
      split; [exact H5|]. split; [|intros _; by apply H2].
      apply H3. destruct (on_queue_lookup _ _ _ Hinv Hnext) as (nb & Hnb & _). eauto.
    + split; [exact Hinv|]. exists c. cbn [sched in_schedule].
      split; [exact Hcur|]. split; [exact Hc|discriminate].
Qed.

Lemma exec_all_inv steps :
  forall y y', exec_all grow steps y = Some y' -> system_inv y -> system_inv y'.
Proof.
  induction steps as [|a steps IH]; intros y y' Hex Hsys; simpl in Hex.
  - by injection Hex as <-.
  - destruct (exec grow a y) as [y1|] eqn:Ha; [|discriminate].
    eapply IH; [exact Hex|]. eapply exec_inv; eauto.
Qed.

End ReachFacts.



(** ** Fiber lifecycle *)

Section LifecycleFacts.
Context {P : Platform}.
Variable invoke : Z -> list Z -> scheduler * machine -> run (scheduler * machine).

Lemma then_run_returns {St : Type} (r : run St) (g : St -> run St) path st' :
  returns_via r path st' -> resume (then_run r g) path = g st'.
Proof.
  revert path. induction r as [st|b st k IH]; intros [|x path]; simpl; try tauto.
  - intros ->. destruct (g st'); reflexivity.
  - apply IH.
Qed.

Lemma first_run_launch fb st :
  LR (tcb fb) = address_of fn_launch_new_fiber ->
  first_run invoke fb st = Some (launch_new_fiber invoke (tcb fb) st).
Proof. intros H. unfold first_run. rewrite H, Z.eqb_refl. reflexivity. Qed.

Lemma first_run_launch_param fb st :
  address_of fn_launch_new_fiber_param <> address_of fn_launch_new_fiber ->
  LR (tcb fb) = address_of fn_launch_new_fiber_param ->
  first_run invoke fb st = Some (launch_new_fiber_param invoke (tcb fb) st).
Proof.
  intros Hne H. unfold first_run. rewrite H, Z.eqb_refl.
  destruct (Z.eqb_spec (address_of fn_launch_new_fiber_param)
              (address_of fn_launch_new_fiber)); [contradiction|reflexivity].
Qed.

End LifecycleFacts.

(** C8: for both overloads of [create_fiber] an omitted completion
    function is [release_fiber]; the new fiber is on the run queue and its
    first execution is the trampoline, which runs the entry function and,
    along every way the entry function comes to return, calls the
    completion function next, in the state the entry function returned
    in. *)
Theorem create_fiber_reaches_completion {P : Platform}
    (invoke : Z -> list Z -> scheduler * machine -> run (scheduler * machine))
    (entry_fn param : Z) (completion_fn : option Z) (s : scheduler) (m : machine) :
  queue_inv s ->
  address_of fn_launch_new_fiber_param <> address_of fn_launch_new_fiber ->
  (create_fiber entry_fn None (s, m)
   = create_fiber entry_fn (Some (address_of fn_release_fiber)) (s, m)) /\
  (create_fiber_param entry_fn param None (s, m)
   = create_fiber_param entry_fn param (Some (address_of fn_release_fiber_param)) (s, m)) /\
  (let completion := default (address_of fn_release_fiber) completion_fn in
   let f := fst (create_fiber entry_fn completion_fn (s, m)) in
   let s' := fst (snd (create_fiber entry_fn completion_fn (s, m))) in
   fibers s !! f = None /\ on_queue s' f RunQueue /\
   exists fb, fibers s' !! f = Some fb /\
     forall st,
       first_run invoke fb st
       = Some (then_run (invoke entry_fn [] st) (fun st' => invoke completion [] st')) /\
       forall path st', returns_via (invoke entry_fn [] st) path st' ->
         exists r, first_run invoke fb st = Some r /\
                   resume r path = invoke completion [] st') /\
  (let completion := default (address_of fn_release_fiber_param) completion_fn in
   let f := fst (create_fiber_param entry_fn param completion_fn (s, m)) in
   let s' := fst (snd (create_fiber_param entry_fn param completion_fn (s, m))) in
   fibers s !! f = None /\ on_queue s' f RunQueue /\
   exists fb, fibers s' !! f = Some fb /\
     forall st,
       first_run invoke fb st
       = Some (then_run (invoke entry_fn [param] st)
                 (fun st' => invoke completion [param] st')) /\
       forall path st', returns_via (invoke entry_fn [param] st) path st' ->
         exists r, first_run invoke fb st = Some r /\
                   resume r path = invoke completion [param] st').
Proof.
  intros Hinv Haddr. split; [reflexivity|]. split; [reflexivity|]. split.
  - cbv zeta. unfold create_fiber.
    set (regs := start_context _ _ _ _).
    destruct (spawn_on regs s m Hinv) as (Hfresh & _ & _ & _ & Hon & _ & _ & Hfb).
    cbv zeta in *. split; [exact Hfresh|]. split; [apply Hon; auto|].
    destruct Hfb as (fb & Hfb & Htcb & _). exists fb. split; [exact Hfb|].
    intros st.
    assert (first_run invoke fb st
            = Some (then_run (invoke entry_fn [] st)
                      (fun st' => invoke (default (address_of fn_release_fiber)
                                             completion_fn) [] st'))) as Hrun.
    { rewrite first_run_launch by (rewrite Htcb; reflexivity).
      unfold launch_new_fiber. rewrite Htcb. reflexivity. }
    split; [exact Hrun|]. intros path st' Hret.
    eexists. split; [exact Hrun|]. by apply then_run_returns.
  - cbv zeta. unfold create_fiber_param.
    set (regs := start_context _ _ _ _).
    destruct (spawn_on regs s m Hinv) as (Hfresh & _ & _ & _ & Hon & _ & _ & Hfb).
    cbv zeta in *. split; [exact Hfresh|]. split; [apply Hon; auto|].
    destruct Hfb as (fb & Hfb & Htcb & _). exists fb. split; [exact Hfb|].
    intros st.
    assert (first_run invoke fb st
            = Some (then_run (invoke entry_fn [param] st)
                      (fun st' => invoke (default (address_of fn_release_fiber_param)
                                             completion_fn) [param] st'))) as Hrun.
    { rewrite first_run_launch_param by (rewrite ?Htcb; auto).
      unfold launch_new_fiber_param. rewrite Htcb. reflexivity. }
    split; [exact Hrun|]. intros path st' Hret.
    eexists. split; [exact Hrun|]. by apply then_run_returns.
Qed.

Lemma create_fiber_reaches_completion_witness :
  let st := (one_running 0, sim_machine 64) in
  let f := fst (create_fiber (P := sim_platform) 0x400 None st) in
  let s' := fst (snd (create_fiber (P := sim_platform) 0x400 None st)) in
  on_queue s' f RunQueue /\
  exists fb r, fibers s' !! f = Some fb /\
    first_run sim_invoke fb st = Some r /\
    resume r [st] = sim_invoke 0x140 [] st.
Proof.
  cbv zeta.
  destruct (create_fiber_reaches_completion (P := sim_platform) sim_invoke 0x400 0 None
              (one_running 0) (sim_machine 64) (one_running_inv 0))
    as (_ & _ & (_ & Hon & fb & Hfb & Hrun) & _).
  { vm_compute. discriminate. }
  split; [exact Hon|]. exists fb.
  destruct (Hrun (one_running 0, sim_machine 64)) as (_ & Hret).
  destruct (Hret [(one_running 0, sim_machine 64)] (one_running 0, sim_machine 64))
    as (r & Hr & Hres).
  { reflexivity. }
  exists r. split; [exact Hfb|]. split; [exact Hr|exact Hres].
Defined.

(** ** Fork on block *)

Section BlockFacts.
Implicit Types (s : scheduler) (f x c n : nat) (q : queue_id).

Lemma walk_links fuel (h h' : gmap nat Fiber) (start : option nat) :
  (forall x, next <$> h' !! x = next <$> h !! x) ->
  walk fuel h' start = walk fuel h start.
Proof.
  intros Hn. revert start. induction fuel as [|fuel IH]; intros [x|]; simpl; try reflexivity.
  f_equal. specialize (Hn x).
  destruct (h' !! x) as [fb'|], (h !! x) as [fb|]; simpl in Hn; try discriminate;
    [|reflexivity].
  injection Hn as ->. apply IH.
Qed.

Lemma update_dom s x g : dom (fibers (update x g s)) = dom (fibers s).
Proof. rewrite fibers_update. apply dom_alter_L. Qed.

Lemma update_queue_members s x g q :
  (forall fb, fiber_links (g fb) = fiber_links fb) ->
  queue_members (update x g s) q = queue_members s q.
Proof.
  intros Hg. unfold queue_members.
  rewrite head_update, <- !size_dom, update_dom.
  apply walk_links. intros z. rewrite fibers_update, lookup_alter.
  case_decide; [subst|reflexivity].
  destruct (fibers s !! z) as [fb|]; simpl; [|reflexivity].
  specialize (Hg fb). unfold fiber_links in Hg. injection Hg as _ Hn _. by rewrite Hn.
Qed.

Lemma update_lookup_ne s x g z : z <> x -> fibers (update x g s) !! z = fibers s !! z.
Proof. intros H. rewrite fibers_update. by apply lookup_alter_ne. Qed.

Lemma same_data_dom s s' : same_data s s' -> dom (fibers s') = dom (fibers s).
Proof.
  intros (H & _). apply set_eq. intros x. rewrite !elem_of_dom. specialize (H x).
  destruct (fibers s' !! x), (fibers s !! x); simpl in H; try discriminate;
    split; intros [? ?]; eauto; discriminate.
Qed.

(** The data of the fibers that a blocking call does not block. *)
Lemma block_on_queue_data s c q k x :
  x <> c ->
  fiber_data <$> fibers (queue_fiber c q (dequeue_fiber c (update c (set_context k) s))) !! x
  = fiber_data <$> fibers s !! x.
Proof.
  intros Hx.
  pose proof (same_data_trans _ _ _
                (dequeue_fiber_same_data (update c (set_context k) s) c)
                (queue_fiber_same_data (dequeue_fiber c (update c (set_context k) s)) c q))
    as (Hd & _).
  rewrite Hd. by rewrite update_lookup_ne.
Qed.

Lemma block_current_on b s n nb :
  queue_inv s -> currentFiber s = Some n -> fibers s !! n = Some nb ->
  on_queue s n RunQueue ->
  let s' := block_current b s in
  queue_inv s' /\
  on_queue s' n (queue_of_call b) /\
  (forall x q, x <> n -> on_queue s' x q <-> on_queue s x q) /\
  dom (fibers s') = dom (fibers s) /\
  (forall x, x <> n -> fiber_data <$> fibers s' !! x = fiber_data <$> fibers s !! x) /\
  (exists nb', fibers s' !! n = Some nb' /\ flags nb' = flags nb).
Proof.
  intros Hinv Hcur Hnb Hrun.
  assert (forall q k,
            let s' := queue_fiber n q (dequeue_fiber n (update n (set_context k) s)) in
            queue_inv s' /\ on_queue s' n q /\
            (forall x q', x <> n -> on_queue s' x q' <-> on_queue s x q') /\
            dom (fibers s') = dom (fibers s) /\
            (forall x, x <> n ->
               fiber_data <$> fibers s' !! x = fiber_data <$> fibers s !! x) /\
            (exists nb', fibers s' !! n = Some nb' /\ flags nb' = flags nb)) as Hblock.
  { intros q k. cbv zeta.
    destruct (block_on_queue s n q k nb Hinv Hnb) as (H1 & H2 & _).
    pose proof (same_data_trans _ _ _
                  (dequeue_fiber_same_data (update n (set_context k) s) n)
                  (queue_fiber_same_data (dequeue_fiber n (update n (set_context k) s)) n q))
      as Hsd.
    split; [exact H1|]. split; [apply H2; auto|]. split; [|split; [|split]].
    - intros x q' Hx. rewrite H2. tauto.
    - rewrite (same_data_dom _ _ Hsd). apply update_dom.
    - intros x Hx. by apply block_on_queue_data.
    - assert (fibers (update n (set_context k) s) !! n = Some (set_context k nb)) as Hn1.
      { rewrite fibers_update, lookup_alter_eq, Hnb. reflexivity. }
      destruct (same_data_lookup _ _ _ _ Hsd Hn1) as (nb' & Hnb' & Hd).
      exists nb'. split; [exact Hnb'|]. unfold fiber_data in Hd.
      injection Hd as _ _ _ _ Hfl. exact Hfl. }
  destruct b as [|t|id v]; cbn [block_current queue_of_call].
  - split; [exact Hinv|]. split; [exact Hrun|]. split; [tauto|].
    split; [reflexivity|]. split; [reflexivity|]. eauto.
  - unfold fiber_sleep_enqueue. rewrite Hcur. apply Hblock.
  - unfold fiber_wait_enqueue. rewrite Hcur. apply Hblock.
Qed.

Lemma flag_set_reads (v : Z) (a : Flags.fiber_flag) :
  Flags.has_flag (Flags.set_flag v (Flags.mask a)) (Flags.mask a) = true /\
  Flags.has_flag (Flags.clear_flag v (Flags.mask a)) (Flags.mask a) = false.
Proof.
  pose proof (bit_range a).
  rewrite !has_flag_testbit, testbit_set, testbit_clear by lia.
  rewrite Z.eqb_refl. simpl. rewrite orb_true_r, andb_false_r. auto.
Qed.

End BlockFacts.

Section ForkFacts.
Context {P : Platform}.
Variable grow : Z -> Z -> Z.
Variable invoke : Z -> list Z -> scheduler * machine -> run (scheduler * machine).
Implicit Types (s : scheduler) (f x c n : nat) (q : queue_id).

Lemma spawn_data regs s m :
  let f := fst (spawn regs (s, m)) in
  let s' := fst (snd (spawn regs (s, m))) in
  dom (fibers s') = {[f]} ∪ dom (fibers s) /\
  (forall x, x <> f -> fiber_data <$> fibers s' !! x = fiber_data <$> fibers s !! x).
Proof.
  unfold spawn. cbn [fst snd].
  destruct (malloc FIBER_STACK_SIZE m) as [bottom m1]. cbn [fst snd].
  set (f := fresh (dom (fibers s))).
  set (fb := mkFiber _ bottom regs 0 0 None None None).
  set (s1 := set_fibers (<[f := fb]> (fibers s)) s).
  pose proof (queue_fiber_same_data s1 f RunQueue) as Hsd.
  split.
  - rewrite (same_data_dom _ _ Hsd). unfold s1. simpl. apply dom_insert_L.
  - intros x Hx. destruct Hsd as (Hd & _). rewrite Hd. unfold s1. simpl.
    by rewrite lookup_insert_ne.
Qed.

Lemma verify_stack_size_data f s m :
  let s' := fst (verify_stack_size grow f (s, m)) in
  dom (fibers s') = dom (fibers s) /\
  (forall x, x <> f -> fibers s' !! x = fibers s !! x) /\
  (forall fb, fibers s !! f = Some fb ->
     exists fb', fibers s' !! f = Some fb' /\ flags fb' = flags fb /\ tcb fb' = tcb fb).
Proof.
  unfold verify_stack_size. cbn [fst snd].
  destruct (fibers s !! f) as [fb|] eqn:Hfb; cbn [fst].
  - destruct (_ <? _); cbn [fst].
    + destruct (malloc _ _) as [bottom m2]. cbn [fst].
      split; [apply update_dom|]. split; [intros; by apply update_lookup_ne|].
      intros fb0 [= <-]. eexists. rewrite fibers_update, lookup_alter_eq, Hfb.
      split; [reflexivity|]. split; reflexivity.
    + split; [reflexivity|]. split; [reflexivity|]. intros fb0 H. exists fb0.
      split; [congruence|]. split; reflexivity.
  - split; [reflexivity|]. split; [reflexivity|]. intros; discriminate.
Qed.

(** Materializing the child of a fork. *)
Lemma materialize_on s m :
  queue_inv s ->
  let n := fst (materialize grow (s, m)) in
  let s' := fst (snd (materialize grow (s, m))) in
  fibers s !! n = None /\
  queue_inv s' /\
  currentFiber s' = Some n /\
  ticks s' = ticks s /\
  (forall x q, on_queue s' x q <-> (x = n /\ q = RunQueue) \/ on_queue s x q) /\
  dom (fibers s') = {[n]} ∪ dom (fibers s) /\
  (exists nb, fibers s' !! n = Some nb /\ flags nb = MICROBIT_FIBER_FLAG_CHILD) /\
  (forall x, x <> n -> fiber_data <$> fibers s' !! x = fiber_data <$> fibers s !! x).
Proof.
  intros Hinv. unfold materialize.
  pose proof (spawn_on zero_tcb s m Hinv) as Hsp.
  pose proof (spawn_data zero_tcb s m) as Hsd.
  destruct (spawn zero_tcb (s, m)) as [n [s1 m1]]. cbn [fst snd] in Hsp, Hsd.
  destruct Hsp as (Hfresh & Hinv1 & Hcur1 & Ht1 & Hon1 & _ & _ & (nb1 & Hnb1 & _)).
  destruct Hsd as (Hdom1 & Hdat1).
  pose proof (verify_stack_size_on grow n s1 m1 Hinv1) as Hv.
  pose proof (verify_stack_size_data n s1 m1) as Hvd.
  destruct (verify_stack_size grow n (s1, m1)) as [s2 m2]. cbn [fst snd] in Hv, Hvd |- *.
  destruct Hv as (Hinv2 & Hon2 & _ & _ & Hcur2 & Ht2).
  destruct Hvd as (Hdom2 & Hoth2 & Hn2).
  destruct (Hn2 nb1 Hnb1) as (nb2 & Hnb2 & _). rewrite Hnb2.
  destruct (save_context (stack_top nb2) m2) as [regs m3]. cbn [fst snd].
  destruct (update_data_on s2 n (mark_child regs) ltac:(reflexivity) Hinv2)
    as (Hinv3 & Hon3 & _).
  destruct (same_links_on _ _ Hinv3
              (set_current_links (Some n) (update n (mark_child regs) s2)))
    as [Hinv4 Hon4].
  split; [exact Hfresh|]. split; [exact Hinv4|]. split; [reflexivity|].
  split; [simpl; congruence|]. split; [|split; [|split]].
  - intros x q. rewrite Hon4, Hon3, Hon2. apply Hon1.
  - simpl. rewrite dom_alter_L, Hdom2. exact Hdom1.
  - exists (mark_child regs nb2). simpl. rewrite lookup_alter_eq, Hnb2. split; reflexivity.
  - intros x Hx. simpl. rewrite lookup_alter_ne by auto. rewrite Hoth2 by auto.
    by apply Hdat1.
Qed.

End ForkFacts.



(** ** Theorems on the flag masks and the interrupt query *)

(** C9: the flags field is a bitset with the three masks FOB = 0x01,
    PARENT = 0x02 and CHILD = 0x04; the masks are single bits, pairwise
    disjoint, and setting or clearing one of them leaves the reading of
    each of the other two as it was, for every value of the field. *)
Theorem flag_masks_independent :
  (MICROBIT_FIBER_FLAG_FOB = 0x01 /\
   MICROBIT_FIBER_FLAG_PARENT = 0x02 /\
   MICROBIT_FIBER_FLAG_CHILD = 0x04) /\
  (forall k, Flags.mask k = Z.shiftl 1 (Flags.bit k)) /\
  (forall a b, a <> b -> Z.land (Flags.mask a) (Flags.mask b) = 0) /\
  (forall flags a b, a <> b ->
     Flags.has_flag (Flags.set_flag flags (Flags.mask a)) (Flags.mask b)
       = Flags.has_flag flags (Flags.mask b) /\
     Flags.has_flag (Flags.clear_flag flags (Flags.mask a)) (Flags.mask b)
       = Flags.has_flag flags (Flags.mask b)) /\
  (forall flags a,
     Flags.has_flag (Flags.set_flag flags (Flags.mask a)) (Flags.mask a) = true /\
     Flags.has_flag (Flags.clear_flag flags (Flags.mask a)) (Flags.mask a) = false).
Proof.
  split; [repeat split|].
  split; [intros []; reflexivity|].
  split; [intros [] [] H; try reflexivity; congruence|].
  split.
  - intros flags a b Hab.
    assert ((Flags.bit a =? Flags.bit b) = false) as Hne.
    { apply Z.eqb_neq. intros E. apply Hab, bit_inj, E. }
    pose proof (bit_range b).
    rewrite !has_flag_testbit, testbit_set, testbit_clear by lia.
    rewrite Hne. simpl. rewrite orb_false_r, andb_true_r. auto.
  - intros flags a. pose proof (bit_range a).
    rewrite !has_flag_testbit, testbit_set, testbit_clear by lia.
    rewrite Z.eqb_refl. simpl. rewrite orb_true_r, andb_false_r. auto.
Qed.

(** C10: for every value of IPSR, [inInterruptContext] is positive exactly
    when one of the low six bits of the value is set, and is 0 when all six
    are clear; the value of IPSR is its only input. *)
Theorem inInterruptContext_low_six_bits (ipsr : Z) :
  (0 < inInterruptContext ipsr <-> Z.land ipsr 0x003F <> 0) /\
  (Z.land ipsr 0x003F = 0 -> inInterruptContext ipsr = 0) /\
  (inInterruptContext ipsr = 0 \/ inInterruptContext ipsr = 1).
Proof.
  unfold inInterruptContext. rewrite to_int32_low6.
  assert (0 <= Z.land ipsr 63) as Hnn by (rewrite land_low6; apply Z.mod_pos_bound; lia).
  destruct (Z.gtb_spec (Z.land ipsr 63) 0); repeat split; intros; try lia; auto.
Qed.

(** * Further properties *)

(** ** The interrupt query and the flag words *)

(** X1 (inInterruptContext): the answer depends on the exception number
    alone, the low six bits of IPSR: for a value made of an exception
    number [n] below 64 and any content [hi] of the bits above, negative
    values of the cast to [int] included, the function gives 0 for
    [n = 0], thread mode, and 1 for every other [n]. *)
Theorem inInterruptContext_exception_number (n hi : Z) :
  0 <= n < 64 ->
  inInterruptContext (n + 64 * hi) = (if n =? 0 then 0 else 1).
Proof.
  intros Hn. unfold inInterruptContext. rewrite to_int32_low6, land_low6.
  rewrite Z.mul_comm, Z.mod_add by lia. rewrite Z.mod_small by lia.
  destruct (Z.eqb_spec n 0) as [->|Hne]; [reflexivity|].
  destruct (Z.gtb_spec n 0); [reflexivity|lia].
Qed.

Lemma inInterruptContext_exception_number_witness :
  inInterruptContext (15 + 64 * 33554432) = 1 /\ inInterruptContext (0 + 64 * 7) = 0.
Proof.
  split.
  - apply (inInterruptContext_exception_number 15 33554432). lia.
  - apply (inInterruptContext_exception_number 0 7). lia.
Defined.

Section FlagAlgebra.
Import Flags.

Lemma not32_range x : 0 <= Word.not32 x < 2 ^ 32.
Proof. apply wrap32_range. Qed.

Lemma testbit_high (v n : Z) : 0 <= v < 2 ^ 32 -> 32 <= n -> Z.testbit v n = false.
Proof.
  intros Hv Hn. destruct (Z.eq_dec v 0) as [->|Hne]; [apply Z.bits_0|].
  apply Z.bits_above_log2; [lia|].
  assert (Z.log2 v < 32); [|lia]. apply Z.log2_lt_pow2; lia.
Qed.

Lemma testbit_clear_any v a n :
  0 <= v < 2 ^ 32 -> 0 <= n ->
  Z.testbit (clear_flag v (mask a)) n = Z.testbit v n && negb (bit a =? n).
Proof.
  intros Hv Hn. destruct (Z.lt_ge_cases n 32) as [Hlt|Hge].
  - apply testbit_clear. lia.
  - unfold clear_flag. rewrite Z.land_spec, (testbit_high v n) by lia. reflexivity.
Qed.

Lemma range32_bits v :
  0 <= v -> (forall n, 32 <= n -> Z.testbit v n = false) -> v < 2 ^ 32.
Proof.
  intros Hv Hb. destruct (Z.eq_dec v 0) as [->|Hne]; [lia|].
  apply Z.log2_lt_pow2; [lia|].
  destruct (Z.lt_ge_cases (Z.log2 v) 32) as [H|H]; [exact H|].
  pose proof (Z.bit_log2 v ltac:(lia)) as Hl. rewrite Hb in Hl by lia. discriminate.
Qed.

Lemma set_flag_range v a : 0 <= v < 2 ^ 32 -> 0 <= set_flag v (mask a) < 2 ^ 32.
Proof.
  intros Hv. pose proof (bit_range a) as Ha.
  assert (0 <= set_flag v (mask a)) as Hnn.
  { unfold set_flag. apply Z.lor_nonneg. rewrite mask_pow2. split; [lia|].
    apply Z.pow_nonneg. lia. }
  split; [exact Hnn|]. apply range32_bits; [exact Hnn|].
  intros n Hn. rewrite testbit_set, (testbit_high v n) by lia.
  simpl. apply Z.eqb_neq. lia.
Qed.

Lemma clear_flag_range v a : 0 <= v < 2 ^ 32 -> 0 <= clear_flag v (mask a) < 2 ^ 32.
Proof.
  intros Hv. assert (0 <= clear_flag v (mask a)) as Hnn.
  { unfold clear_flag. apply Z.land_nonneg. left. lia. }
  split; [exact Hnn|]. apply range32_bits; [exact Hnn|].
  intros n Hn. rewrite testbit_clear_any, (testbit_high v n) by lia. reflexivity.
Qed.

Lemma disjoint_lor_add a b : Z.land a b = 0 -> Z.lor a b = a + b.
Proof.
  intros H. rewrite <- (Z.lxor_lor a b H). symmetry. by apply Z.add_nocarry_lxor.
Qed.

Lemma has_flag_false_land v a : has_flag v (mask a) = false -> Z.land v (mask a) = 0.
Proof. unfold has_flag. intros H. apply negb_false_iff in H. by apply Z.eqb_eq. Qed.

End FlagAlgebra.

Lemma set_clear_flag_facts (v : Z) (a : Flags.fiber_flag) :
  0 <= v < 2 ^ 32 ->
  Flags.clear_flag (Flags.set_flag v (Flags.mask a)) (Flags.mask a)
    = Flags.clear_flag v (Flags.mask a) /\
  Flags.set_flag (Flags.clear_flag v (Flags.mask a)) (Flags.mask a)
    = Flags.set_flag v (Flags.mask a) /\
  (Flags.has_flag v (Flags.mask a) = false ->
     Flags.clear_flag (Flags.set_flag v (Flags.mask a)) (Flags.mask a) = v) /\
  (Flags.has_flag v (Flags.mask a) = true ->
     Flags.set_flag (Flags.clear_flag v (Flags.mask a)) (Flags.mask a) = v).
Proof.
  intros Hv. pose proof (set_flag_range v a Hv) as Hs.
  pose proof (clear_flag_range v a Hv) as Hc.
  assert (forall n, 0 <= n ->
            Z.testbit (Flags.clear_flag (Flags.set_flag v (Flags.mask a)) (Flags.mask a)) n
            = Z.testbit v n && negb (Flags.bit a =? n)) as Hcs.
  { intros n Hn. rewrite testbit_clear_any, testbit_set by assumption.
    destruct (Z.testbit v n), (Flags.bit a =? n); reflexivity. }
  assert (forall n, 0 <= n ->
            Z.testbit (Flags.set_flag (Flags.clear_flag v (Flags.mask a)) (Flags.mask a)) n
            = Z.testbit v n || (Flags.bit a =? n)) as Hsc.
  { intros n Hn. rewrite testbit_set, testbit_clear_any by assumption.
    destruct (Z.testbit v n), (Flags.bit a =? n); reflexivity. }
  split; [|split; [|split]].
  - apply Z.bits_inj'. intros n Hn. rewrite Hcs, testbit_clear_any by assumption.
    reflexivity.
  - apply Z.bits_inj'. intros n Hn. rewrite Hsc, testbit_set by assumption.
    reflexivity.
  - intros Hf. rewrite has_flag_testbit in Hf.
    apply Z.bits_inj'. intros n Hn. rewrite Hcs by assumption.
    destruct (Z.eqb_spec (Flags.bit a) n) as [<-|]; [rewrite Hf|]; simpl;
      auto using andb_true_r.
  - intros Hf. rewrite has_flag_testbit in Hf.
    apply Z.bits_inj'. intros n Hn. rewrite Hsc by assumption.
    destruct (Z.eqb_spec (Flags.bit a) n) as [<-|]; [rewrite Hf|]; simpl;
      auto using orb_false_r.
Qed.

(** X2 (MICROBIT_FIBER_FLAG_FOB, _PARENT, _CHILD on the 32-bit [flags]
    word): setting a flag and clearing it are idempotent on each other,
    clearing after setting is clearing and setting after clearing is
    setting; clearing a flag that was set on a word where it was clear
    gives the word back, and so does setting a flag that was cleared on
    a word where it was set. *)
Theorem flag_set_clear_round_trip (v : Z) (a : Flags.fiber_flag) :
  0 <= v < 2 ^ 32 ->
  Flags.clear_flag (Flags.set_flag v (Flags.mask a)) (Flags.mask a)
    = Flags.clear_flag v (Flags.mask a) /\
  Flags.set_flag (Flags.clear_flag v (Flags.mask a)) (Flags.mask a)
    = Flags.set_flag v (Flags.mask a) /\
  (Flags.has_flag v (Flags.mask a) = false ->
     Flags.clear_flag (Flags.set_flag v (Flags.mask a)) (Flags.mask a) = v) /\
  (Flags.has_flag v (Flags.mask a) = true ->
     Flags.set_flag (Flags.clear_flag v (Flags.mask a)) (Flags.mask a) = v).
Proof. apply set_clear_flag_facts. Qed.

Lemma flag_set_clear_round_trip_witness :
  Flags.clear_flag (Flags.set_flag 4 MICROBIT_FIBER_FLAG_PARENT) MICROBIT_FIBER_FLAG_PARENT = 4 /\
  Flags.set_flag (Flags.clear_flag 7 MICROBIT_FIBER_FLAG_FOB) MICROBIT_FIBER_FLAG_FOB = 7.
Proof.
  split.
  - apply (flag_set_clear_round_trip 4 Flags.PARENT); [lia|reflexivity].
  - apply (flag_set_clear_round_trip 7 Flags.FOB); [lia|reflexivity].
Defined.

(** X3 (MICROBIT_FIBER_FLAG_FOB, _PARENT, _CHILD): updates of the
    [flags] word commute: two flags can be set in either order, cleared in
    either order, and for two different flags one can be set and the other
    cleared in either order, with the same word as the result. *)
Theorem flag_updates_commute (v : Z) (a b : Flags.fiber_flag) :
  0 <= v < 2 ^ 32 ->
  Flags.set_flag (Flags.set_flag v (Flags.mask a)) (Flags.mask b)
    = Flags.set_flag (Flags.set_flag v (Flags.mask b)) (Flags.mask a) /\
  Flags.clear_flag (Flags.clear_flag v (Flags.mask a)) (Flags.mask b)
    = Flags.clear_flag (Flags.clear_flag v (Flags.mask b)) (Flags.mask a) /\
  (a <> b ->
     Flags.clear_flag (Flags.set_flag v (Flags.mask a)) (Flags.mask b)
       = Flags.set_flag (Flags.clear_flag v (Flags.mask b)) (Flags.mask a)).
Proof.
  intros Hv.
  pose proof (set_flag_range v a Hv). pose proof (set_flag_range v b Hv).
  pose proof (clear_flag_range v a Hv). pose proof (clear_flag_range v b Hv).
  split; [|split].
  - apply Z.bits_inj'. intros n Hn. rewrite !testbit_set by assumption.
    destruct (Z.testbit v n), (Flags.bit a =? n), (Flags.bit b =? n); reflexivity.
  - apply Z.bits_inj'. intros n Hn. rewrite !testbit_clear_any by assumption.
    destruct (Z.testbit v n), (Flags.bit a =? n), (Flags.bit b =? n); reflexivity.
  - intros Hab. apply Z.bits_inj'. intros n Hn.
    rewrite testbit_clear_any, !testbit_set, testbit_clear_any by assumption.
    destruct (Z.eqb_spec (Flags.bit a) n) as [Ea|], (Z.eqb_spec (Flags.bit b) n) as [Eb|];
      destruct (Z.testbit v n); try reflexivity.
    all: exfalso; apply Hab, bit_inj; congruence.
Qed.

Lemma flag_updates_commute_witness :
  Flags.clear_flag (Flags.set_flag 5 MICROBIT_FIBER_FLAG_PARENT) MICROBIT_FIBER_FLAG_CHILD
  = Flags.set_flag (Flags.clear_flag 5 MICROBIT_FIBER_FLAG_CHILD) MICROBIT_FIBER_FLAG_PARENT.
Proof.
  apply (flag_updates_commute 5 Flags.PARENT Flags.CHILD); [lia|discriminate].
Defined.

(** X4 (MICROBIT_FIBER_FLAG_FOB, _PARENT, _CHILD): on a 32-bit word,
    setting a flag adds its mask when the flag was clear and changes
    nothing when it was set; clearing it subtracts the mask when the flag
    was set and changes nothing when it was clear; both results are 32-bit
    words again, so neither update needs a wrap-around. *)
Theorem flag_update_arithmetic (v : Z) (a : Flags.fiber_flag) :
  0 <= v < 2 ^ 32 ->
  Flags.set_flag v (Flags.mask a)
    = v + (if Flags.has_flag v (Flags.mask a) then 0 else Flags.mask a) /\
  Flags.clear_flag v (Flags.mask a)
    = v - (if Flags.has_flag v (Flags.mask a) then Flags.mask a else 0) /\
  0 <= Flags.set_flag v (Flags.mask a) < 2 ^ 32 /\
  0 <= Flags.clear_flag v (Flags.mask a) < 2 ^ 32.
Proof.
  intros Hv.
  destruct (set_clear_flag_facts v a Hv) as (Hcs & Hsc & Hclr & Hset).
  pose proof (clear_flag_range v a Hv) as Hc.
  assert (Flags.has_flag (Flags.clear_flag v (Flags.mask a)) (Flags.mask a) = false) as Hcf.
  { apply (flag_set_reads v a). }
  split; [|split; [|split; [apply set_flag_range, Hv|exact Hc]]].
  - destruct (Flags.has_flag v (Flags.mask a)) eqn:Hf.
    + rewrite <- Hsc, (Hset eq_refl). lia.
    + unfold Flags.set_flag. rewrite (disjoint_lor_add _ _ (has_flag_false_land _ _ Hf)). lia.
  - destruct (Flags.has_flag v (Flags.mask a)) eqn:Hf.
    + specialize (Hset eq_refl). unfold Flags.set_flag in Hset.
      rewrite (disjoint_lor_add _ _ (has_flag_false_land _ _ Hcf)) in Hset. lia.
    + rewrite <- Hcs, (Hclr eq_refl). lia.
Qed.

Lemma flag_update_arithmetic_witness :
  Flags.set_flag 4 MICROBIT_FIBER_FLAG_PARENT = 6 /\
  Flags.clear_flag 6 MICROBIT_FIBER_FLAG_PARENT = 4.
Proof.
  split.
  - apply (flag_update_arithmetic 4 Flags.PARENT). lia.
  - apply (flag_update_arithmetic 6 Flags.PARENT). lia.
Defined.

(** ** The queues as lists *)

Section MemberFacts.
Implicit Types (s : scheduler) (f x c : nat) (q : queue_id) (l : list nat).

Lemma filter_ne_notin f l : f ∉ l -> filter (fun x => x <> f) l = l.
Proof.
  induction l as [|y l IH]; intros Hf; [reflexivity|].
  apply not_elem_of_cons in Hf as [Hne Hf].
  rewrite filter_cons_True by auto. by rewrite IH.
Qed.

Lemma filter_ne_split f l1 l2 :
  NoDup (l1 ++ f :: l2) -> filter (fun x => x <> f) (l1 ++ f :: l2) = l1 ++ l2.
Proof.
  intros Hnd. apply NoDup_app in Hnd as (_ & Hd & Hnd).
  apply NoDup_cons in Hnd as [Hf2 _].
  rewrite filter_app, filter_cons_False by (intros H; by apply H).
  rewrite !filter_ne_notin; [reflexivity|exact Hf2|].
  intros Hin. apply (Hd _ Hin). left.
Qed.

Lemma queue_fiber_members s f q :
  queue_inv s -> unqueued s f ->
  forall q', queue_members (queue_fiber f q s) q'
             = if decide (q' = q) then f :: queue_members s q else queue_members s q'.
Proof.
  intros [L HL] Hun q'. pose proof (queue_fiber_are _ _ _ q HL Hun) as HL'.
  rewrite (queue_members_are _ _ _ HL'), !(queue_members_are _ _ _ HL).
  unfold set_list. destruct (decide (q' = q)) as [->|]; reflexivity.
Qed.

Lemma dequeue_fiber_members s f :
  queue_inv s ->
  forall q, queue_members (dequeue_fiber f s) q
            = filter (fun x => x <> f) (queue_members s q).
Proof.
  intros [L HL] q. rewrite (queue_members_are _ _ _ HL).
  assert ((forall fb, fibers s !! f = Some fb -> queue fb = None) ->
          queue_members (dequeue_fiber f s) q = filter (fun x => x <> f) (L q)) as Hnoop.
  { intros Hnone. rewrite (dequeue_fiber_noop _ _ Hnone), (queue_members_are _ _ _ HL).
    symmetry. apply filter_ne_notin. intros Hin.
    destruct (dseg_elem _ _ _ _ _ _ _ (qa_seg _ _ HL q) Hin) as (fb & Hfb & Hq).
    rewrite (Hnone fb Hfb) in Hq. discriminate. }
  destruct (fibers s !! f) as [fb|] eqn:Hfb; [|apply Hnoop; intros; discriminate].
  destruct (queue fb) as [q0|] eqn:Hq; [|apply Hnoop; intros; congruence].
  pose proof (qa_back _ _ HL _ _ _ Hfb Hq) as Hin.
  apply list_elem_of_split in Hin as (l1 & l2 & HLq).
  pose proof (dequeue_fiber_are _ _ _ _ _ _ HL HLq) as HL'.
  rewrite (queue_members_are _ _ _ HL'). unfold set_list.
  destruct (decide (q = q0)) as [->|Hne].
  - rewrite HLq. symmetry. apply filter_ne_split. rewrite <- HLq. apply (qa_nodup _ _ HL).
  - symmetry. apply filter_ne_notin. intros Hin. apply Hne.
    pose proof (queues_are_queue _ _ _ _ _ HL Hin Hfb). congruence.
Qed.

(** Two schedulers with the same fields are the same. *)
Lemma scheduler_eq s s' :
  fibers s = fibers s' -> (forall q, head s q = head s' q) ->
  currentFiber s = currentFiber s' -> ticks s = ticks s' ->
  fiber_flags s = fiber_flags s' -> s = s'.
Proof.
  destruct s, s'. simpl. intros -> Hh -> -> ->.
  pose proof (Hh RunQueue) as H1. pose proof (Hh SleepQueue) as H2.
  pose proof (Hh WaitQueue) as H3. simpl in *. by subst.
Qed.

Lemma queue_then_dequeue s f q fb :
  queue_inv s -> fibers s !! f = Some fb -> fiber_links fb = (None, None, None) ->
  dequeue_fiber f (queue_fiber f q s) = s.
Proof.
  intros Hinv Hfb Hlinks. pose proof Hinv as [L HL].
  unfold fiber_links in Hlinks. injection Hlinks as Hq Hn Hp.
  assert (unqueued s f) as Hun by (exists fb; auto).
  assert (head s q <> Some f) as Hhead.
  { intros Hh. pose proof (head_on_queue _ _ _ Hinv Hh) as Hon.
    destruct (on_queue_lookup _ _ _ Hinv Hon) as (fb' & Hfb' & Hq'). congruence. }
  set (s1 := queue_fiber f q s).
  assert (fibers s1 !! f = Some (set_links (Some q) (head s q) None fb)) as Hf1.
  { unfold s1. rewrite queue_fiber_lookup, Hfb. simpl.
    destruct (decide (head s q = Some f)) as [?|_]; [contradiction|].
    destruct (decide (f = f)) as [_|?]; [reflexivity|contradiction]. }
  pose proof (same_data_trans _ _ _ (queue_fiber_same_data s f q)
                (dequeue_fiber_same_data s1 f)) as (_ & Hc & Ht & Hff).
  apply scheduler_eq; auto.
  - apply map_eq. intros x.
    rewrite (dequeue_fiber_lookup _ _ _ _ x Hf1 eq_refl). unfold s1.
    rewrite queue_fiber_lookup. cbn [prev next set_links].
    destruct (fibers s !! x) as [xb|] eqn:Hx; [|reflexivity]. simpl. f_equal.
    destruct (decide (x = f)) as [->|Hxf].
    + assert (xb = fb) as -> by congruence.
      destruct (decide (None = Some f)) as [?|_]; [discriminate|].
      destruct (decide (head s q = Some f)) as [?|_]; [contradiction|].
      destruct fb; simpl in *; subst; reflexivity.
    + destruct (decide (None = Some x)) as [?|_]; [discriminate|].
      destruct (decide (head s q = Some x)) as [Hh|Hh]; [|reflexivity].
      assert (prev xb = None) as Hpx.
      { pose proof (qa_seg _ _ HL q) as Hseg. rewrite Hh in Hseg.
        destruct (L q); simpl in Hseg; [discriminate|].
        destruct Hseg as [[= <-] (xb' & Hx' & _ & Hp' & _)]. congruence. }
      destruct xb; simpl in *; subst; reflexivity.
  - intros q'. rewrite (dequeue_fiber_head _ _ _ _ q' Hf1 eq_refl). unfold s1.
    cbn [prev next set_links].
    destruct (decide (q = q')) as [<-|Hne].
    + destruct (decide (q = q /\ None = None)) as [_|Hn']; [reflexivity|].
      exfalso. apply Hn'. auto.
    + destruct (decide (q = q' /\ None = None)) as [[? _]|_]; [contradiction|].
      unfold queue_fiber. rewrite head_set_head_ne by auto.
      destruct (head s q); rewrite ?head_update; reflexivity.
Qed.

End MemberFacts.

Section ListFacts.
Implicit Types (s : scheduler) (f x c : nat) (q : queue_id) (l : list nat).

Lemma wake_scan_members wake src s :
  src <> RunQueue -> queue_inv s ->
  let s' := wake_scan (size (fibers s)) wake (head s src) s in
  queue_members s' RunQueue
    = reverse (List.filter (wakes wake s) (queue_members s src))
      ++ queue_members s RunQueue /\
  queue_members s' src
    = List.filter (fun x => negb (wakes wake s x)) (queue_members s src) /\
  (forall q, q <> RunQueue -> q <> src -> queue_members s' q = queue_members s q) /\
  same_data s s'.
Proof.
  intros Hsrc [L HL].
  pose proof (qa_seg _ _ HL src) as Hseg. apply dseg_hd in Hseg.
  assert (head s src = hd_error (L src)) as Hhd.
  { rewrite Hseg. destruct (L src); reflexivity. }
  destruct (wake_scan_are wake src (wakes wake s) Hsrc (L src) s L []
              (size (fibers s)) HL eq_refl (queues_are_length _ _ _ HL)
              (fun x => eq_refl)) as [HL' Hsd].
  rewrite <- Hhd in HL', Hsd. cbv zeta.
  rewrite !(queue_members_are _ _ _ HL'), !(queue_members_are _ _ _ HL).
  rewrite set_list_eq, set_list_ne, set_list_eq by auto.
  split; [reflexivity|]. split; [reflexivity|]. split; [|exact Hsd].
  intros q H1 H2. rewrite (queue_members_are _ _ _ HL'), (queue_members_are _ _ _ HL).
  by rewrite !set_list_ne by auto.
Qed.

Lemma set_ticks_members t s q : queue_members (set_ticks t s) q = queue_members s q.
Proof. destruct q; reflexivity. Qed.

Lemma wake_scan_ticks wake fuel :
  forall (start : option nat) s, ticks (wake_scan fuel wake start s) = ticks s.
Proof.
  induction fuel as [|fuel IH]; intros [x|] s; simpl; try reflexivity.
  destruct (fibers s !! x) as [fb|]; [|reflexivity]. rewrite IH.
  destruct (wake (context fb)); [|reflexivity].
  pose proof (same_data_trans _ _ _ (dequeue_fiber_same_data s x)
                (queue_fiber_same_data (dequeue_fiber x s) x RunQueue)) as (_ & _ & Ht & _).
  exact Ht.
Qed.

Lemma scheduler_tick_ticks s :
  ticks (scheduler_tick s) = Word.wrap32 (ticks s + FIBER_TICK_PERIOD_MS).
Proof. unfold scheduler_tick. rewrite wake_scan_ticks. reflexivity. Qed.

Lemma ticks_iter (n : nat) s :
  0 <= ticks s < 2 ^ 32 ->
  ticks (Nat.iter n scheduler_tick s)
  = Word.wrap32 (ticks s + FIBER_TICK_PERIOD_MS * Z.of_nat n).
Proof.
  intros Hs. induction n as [|n IH].
  - simpl. rewrite Z.mul_0_r, Z.add_0_r. symmetry. by apply wrap32_small.
  - change (Nat.iter (S n) scheduler_tick s)
      with (scheduler_tick (Nat.iter n scheduler_tick s)).
    rewrite scheduler_tick_ticks, IH. unfold Word.wrap32.
    rewrite Zplus_mod_idemp_l. f_equal. lia.
Qed.

(** A new, unqueued fiber leaves the queues as they are. *)
Lemma insert_fresh_are s L f fb :
  queues_are s L -> fibers s !! f = None -> queue fb = None ->
  queues_are (set_fibers (<[f := fb]> (fibers s)) s) L.
Proof.
  intros [Hseg Hnd Hback] Hfresh Hq. split.
  - intros q. replace (head (set_fibers (<[f := fb]> (fibers s)) s) q) with (head s q)
      by (destruct q; reflexivity).
    eapply dseg_agree; [|apply Hseg]. intros x Hx.
    destruct (dseg_elem _ _ _ _ _ _ _ (Hseg q) Hx) as (xb & Hxb & _).
    simpl. apply lookup_insert_ne. intros <-. congruence.
  - exact Hnd.
  - intros x xb q Hx Hxq. simpl in Hx.
    apply lookup_insert_Some in Hx as [[<- <-]|[Hne Hx]]; [congruence|].
    eapply Hback; eauto.
Qed.

Lemma no_fibers_members q : queue_members no_fibers q = [].
Proof. destruct q; reflexivity. Qed.

End ListFacts.

Section SpawnFacts.
Context {P : Platform}.
Implicit Types (s : scheduler) (f x c : nat) (q : queue_id).

Lemma spawn_members regs s m :
  queue_inv s ->
  forall q, queue_members (fst (snd (spawn regs (s, m)))) q
            = if decide (q = RunQueue)
              then fst (spawn regs (s, m)) :: queue_members s RunQueue
              else queue_members s q.
Proof.
  intros [L HL] q. unfold spawn. cbn [fst snd].
  destruct (malloc FIBER_STACK_SIZE m) as [bottom m1]. cbn [fst snd].
  set (f := fresh (dom (fibers s))).
  set (fb := mkFiber _ bottom regs 0 0 None None None).
  set (s1 := set_fibers (<[f := fb]> (fibers s)) s).
  assert (fibers s !! f = None) as Hfresh by (apply not_elem_of_dom, is_fresh).
  assert (queues_are s1 L) as HL1 by (by apply insert_fresh_are).
  assert (unqueued s1 f) as Hun.
  { exists fb. split; [apply lookup_insert_eq|reflexivity]. }
  rewrite (queue_fiber_members s1 f RunQueue (ex_intro _ L HL1) Hun q).
  by rewrite !(queue_members_are _ _ _ HL1), !(queue_members_are _ _ _ HL).
Qed.

End SpawnFacts.

Section EnqueueFacts.
Implicit Types (s : scheduler) (f x c : nat) (q : queue_id).

Lemma block_enqueue_members s c q k :
  queue_inv s -> is_Some (fibers s !! c) ->
  let s' := queue_fiber c q (dequeue_fiber c (update c (set_context k) s)) in
  queue_inv s' /\
  forall q', queue_members s' q'
             = (if decide (q' = q) then [c] else [])
               ++ filter (fun x => x <> c) (queue_members s q').
Proof.
  intros Hinv Hc. cbv zeta.
  assert (forall fb, fiber_links (set_context k fb) = fiber_links fb) as Hg
    by (intros fb; reflexivity).
  destruct (update_data_on s c (set_context k) Hg Hinv) as (Hinv1 & _ & Hal).
  destruct (Hal c Hc) as [cb Hcb].
  pose proof (dequeue_fiber_inv _ c Hinv1) as Hinv2.
  pose proof (dequeue_fiber_unqueued _ _ _ Hcb) as Hun.
  split; [by apply queue_fiber_inv|]. intros q'.
  rewrite (queue_fiber_members _ _ _ Hinv2 Hun q').
  rewrite !(dequeue_fiber_members _ _ Hinv1), !(update_queue_members _ _ _ _ Hg).
  destruct (decide (q' = q)) as [->|]; reflexivity.
Qed.

End EnqueueFacts.

(** X5 (queue_fiber, "Perform a simple add at the head, to avoid
    complexity"):
    a fiber that is on no queue, put on queue [q], is the first member of
    [q], ahead of the earlier members in their order; the two other queues
    have the members they had; no stack, register context, context word or
    flag of any fiber, nor the current fiber and the counter, changes. *)
Theorem queue_fiber_adds_at_head (s : scheduler) (f : fiber_ptr) (q : queue_id) :
  queue_inv s -> unqueued s f ->
  queue_members (queue_fiber f q s) q = f :: queue_members s q /\
  (forall q', q' <> q -> queue_members (queue_fiber f q s) q' = queue_members s q') /\
  same_data s (queue_fiber f q s).
Proof.
  intros Hinv Hun. split; [|split].
  - rewrite (queue_fiber_members s f q Hinv Hun q).
    destruct (decide (q = q)); [reflexivity|congruence].
  - intros q' Hne. rewrite (queue_fiber_members s f q Hinv Hun q').
    destruct (decide (q' = q)); [congruence|reflexivity].
  - apply queue_fiber_same_data.
Qed.

Lemma queue_fiber_adds_at_head_witness :
  queue_members (queue_fiber 2 RunQueue (one_running 0)) RunQueue
  = 2%nat :: queue_members (one_running 0) RunQueue /\
  queue_members (one_running 0) RunQueue = [1%nat].
Proof.
  split; [|reflexivity].
  apply (queue_fiber_adds_at_head (one_running 0) 2 RunQueue (one_running_inv 0)).
  eexists. split; [vm_compute; reflexivity|reflexivity].
Defined.

(** X6 (dequeue_fiber, which takes "the given fiber from whichever queue
    it is currently stored on"): after [dequeue_fiber f] every queue has the
    members it had, in the order they had, without [f]; the fiber, when it
    exists, is on no queue; the data of the fibers is untouched.  A queue
    that did not hold [f] is therefore unchanged. *)
Theorem dequeue_fiber_removes_in_order (s : scheduler) (f : fiber_ptr) :
  queue_inv s ->
  (forall q, queue_members (dequeue_fiber f s) q
             = filter (fun x => x <> f) (queue_members s q)) /\
  (forall q, ~ on_queue s f q ->
             queue_members (dequeue_fiber f s) q = queue_members s q) /\
  (is_Some (fibers s !! f) -> unqueued (dequeue_fiber f s) f) /\
  same_data s (dequeue_fiber f s).
Proof.
  intros Hinv. split; [|split; [|split]].
  - apply dequeue_fiber_members, Hinv.
  - intros q Hq. rewrite (dequeue_fiber_members s f Hinv q).
    apply filter_ne_notin, Hq.
  - intros [fb Hfb]. eapply dequeue_fiber_unqueued, Hfb.
  - apply dequeue_fiber_same_data.
Qed.

Lemma dequeue_fiber_removes_in_order_witness :
  queue_members (queue_fiber 2 RunQueue (one_running 0)) RunQueue = [2; 1]%nat /\
  queue_members (dequeue_fiber 1 (queue_fiber 2 RunQueue (one_running 0))) RunQueue
  = [2%nat].
Proof.
  split; [reflexivity|].
  assert (queue_inv (queue_fiber 2 RunQueue (one_running 0))) as Hinv.
  { apply queue_fiber_inv; [apply one_running_inv|].
    eexists. split; [vm_compute; reflexivity|reflexivity]. }
  destruct (dequeue_fiber_removes_in_order _ 1%nat Hinv) as (H & _).
  rewrite (H RunQueue). reflexivity.
Defined.

(** X7 (queue_fiber, dequeue_fiber): the two calls are inverse to each
    other on a fiber that is on no queue and whose two link fields are
    null: queueing it on any queue and dequeuing it again gives back the
    scheduler state, every field of every fiber and every queue head
    included. *)
Theorem queue_then_dequeue_round_trip (s : scheduler) (f : fiber_ptr)
    (q : queue_id) (fb : Fiber) :
  queue_inv s -> fibers s !! f = Some fb ->
  fiber_links fb = (None, None, None) ->
  dequeue_fiber f (queue_fiber f q s) = s.
Proof. apply queue_then_dequeue. Qed.

Lemma queue_then_dequeue_round_trip_witness :
  dequeue_fiber 2 (queue_fiber 2 SleepQueue (one_running 0)) = one_running 0.
Proof.
  apply (queue_then_dequeue_round_trip (one_running 0) 2 SleepQueue
           (fresh_fiber 0x20001100) (one_running_inv 0)).
  - vm_compute. reflexivity.
  - reflexivity.
Defined.


(** ** Wake-up scans, the counter and blocking calls *)

(** X9 (scheduler_tick, "Simply checks to determine if any fibers
    blocked on the sleep queue need to be woken up and made runnable"): one tick advances the counter by the tick period in 32
    bits; the sleepers whose wake time is at or before the new counter
    leave the sleep queue and go to the front of the run queue, the one
    that was last on the sleep queue first; the other sleepers stay in
    their order; the wait queue, the current fiber and the data of every
    fiber are as before. *)
Theorem scheduler_tick_moves_due_sleepers (s : scheduler) :
  queue_inv s ->
  let now := Word.wrap32 (ticks s + FIBER_TICK_PERIOD_MS) in
  let due := wakes (wake_time_passed now) s in
  ticks (scheduler_tick s) = now /\
  queue_members (scheduler_tick s) RunQueue
    = reverse (List.filter due (queue_members s SleepQueue))
      ++ queue_members s RunQueue /\
  queue_members (scheduler_tick s) SleepQueue
    = List.filter (fun x => negb (due x)) (queue_members s SleepQueue) /\
  queue_members (scheduler_tick s) WaitQueue = queue_members s WaitQueue /\
  currentFiber (scheduler_tick s) = currentFiber s /\
  (forall x, fiber_data <$> fibers (scheduler_tick s) !! x
             = fiber_data <$> fibers s !! x).
Proof.
  intros Hinv. cbv zeta.
  set (s1 := set_ticks (Word.wrap32 (ticks s + FIBER_TICK_PERIOD_MS)) s).
  assert (queue_inv s1) as Hinv1.
  { apply (same_links_on s s1 Hinv). split; [reflexivity|intros []; reflexivity]. }
  destruct (wake_scan_members (wake_time_passed (ticks s1)) SleepQueue s1
              ltac:(discriminate) Hinv1) as (Hrun & Hsleep & Hother & Hsd).
  cbv zeta in *.
  change (wake_scan _ _ _ s1) with (scheduler_tick s) in *.
  change (ticks s1) with (Word.wrap32 (ticks s + FIBER_TICK_PERIOD_MS)) in *.
  assert (forall q, queue_members s1 q = queue_members s q) as Hm
    by (intros q; apply set_ticks_members).
  rewrite !Hm in Hrun, Hsleep. specialize (Hother WaitQueue). rewrite Hm in Hother.
  split; [apply scheduler_tick_ticks|].
  split; [exact Hrun|]. split; [exact Hsleep|].
  split; [by apply Hother|].
  destruct Hsd as (Hd & Hc & _). split; [exact Hc|exact Hd].
Qed.

(** The running fiber of [one_running] has gone to sleep for 12 ms. *)
Lemma sleeper_inv : queue_inv (fiber_sleep_enqueue 12 (one_running 0)).
Proof.
  apply (block_enqueue_members (one_running 0) 1 SleepQueue _ (one_running_inv 0)).
  eexists. vm_compute. reflexivity.
Qed.

Lemma scheduler_tick_moves_due_sleepers_witness :
  let s := scheduler_tick (fiber_sleep_enqueue 12 (one_running 0)) in
  queue_members s SleepQueue = [1%nat] /\
  queue_members (scheduler_tick s) SleepQueue = [] /\
  queue_members (scheduler_tick s) RunQueue = [1%nat].
Proof.
  cbv zeta. split; [reflexivity|].
  assert (queue_inv (scheduler_tick (fiber_sleep_enqueue 12 (one_running 0)))) as Hinv.
  { apply scheduler_tick_on, sleeper_inv. }
  destruct (scheduler_tick_moves_due_sleepers _ Hinv) as (_ & Hrun & Hsleep & _).
  rewrite Hrun, Hsleep. split; reflexivity.
Defined.

(** X10 (scheduler_event, "Checks to determine if any fibers blocked on
    the wait queue need to be woken up and made runnable due to the
    event"): the waiters whose registration matches the event leave the
    wait queue and go to the front of the run queue, the one that was last
    on the wait queue first; the other waiters stay in their order; the
    sleep queue, the counter, the current fiber and the data of every
    fiber, the registrations included, are as before. *)
Theorem scheduler_event_moves_matching_waiters (evt : MicroBitEvent) (s : scheduler) :
  queue_inv s ->
  let hit := wakes (event_matches evt) s in
  queue_members (scheduler_event evt s) RunQueue
    = reverse (List.filter hit (queue_members s WaitQueue))
      ++ queue_members s RunQueue /\
  queue_members (scheduler_event evt s) WaitQueue
    = List.filter (fun x => negb (hit x)) (queue_members s WaitQueue) /\
  queue_members (scheduler_event evt s) SleepQueue = queue_members s SleepQueue /\
  same_data s (scheduler_event evt s).
Proof.
  intros Hinv. cbv zeta.
  destruct (wake_scan_members (event_matches evt) WaitQueue s
              ltac:(discriminate) Hinv) as (Hrun & Hwait & Hother & Hsd).
  cbv zeta in *. change (wake_scan _ _ _ s) with (scheduler_event evt s) in *.
  split; [exact Hrun|]. split; [exact Hwait|]. split; [by apply Hother|exact Hsd].
Qed.

(** The running fiber of [one_running] waits for the event pair (7, 3). *)
Lemma waiter_inv : queue_inv (fiber_wait_enqueue 7 3 (one_running 0)).
Proof.
  apply (block_enqueue_members (one_running 0) 1 WaitQueue _ (one_running_inv 0)).
  eexists. vm_compute. reflexivity.
Qed.

Lemma scheduler_event_moves_matching_waiters_witness :
  queue_members (fiber_wait_enqueue 7 3 (one_running 0)) WaitQueue = [1%nat] /\
  queue_members (scheduler_event (mkEvent 7 3) (fiber_wait_enqueue 7 3 (one_running 0)))
    RunQueue = [1%nat] /\
  queue_members (scheduler_event (mkEvent 7 4) (fiber_wait_enqueue 7 3 (one_running 0)))
    WaitQueue = [1%nat].
Proof.
  split; [reflexivity|]. split.
  - destruct (scheduler_event_moves_matching_waiters (mkEvent 7 3) _ waiter_inv)
      as (Hrun & _).
    rewrite Hrun. reflexivity.
  - destruct (scheduler_event_moves_matching_waiters (mkEvent 7 4) _ waiter_inv)
      as (_ & Hwait & _).
    rewrite Hwait. reflexivity.
Defined.

(** X11 (ticks, "Time since power on.  Measured in milliseconds";
    scheduler_tick, "once every FIBER_TICK_PERIOD_MS milliseconds"): after [n] ticks of the timer the counter has
    advanced by [n] periods of 6 ms, modulo 2^32, whatever fibers sleep or
    wake in between. *)
Theorem tick_counter_after (n : nat) (s : scheduler) :
  0 <= ticks s < 2 ^ 32 ->
  ticks (Nat.iter n scheduler_tick s)
  = Word.wrap32 (ticks s + FIBER_TICK_PERIOD_MS * Z.of_nat n).
Proof. apply ticks_iter. Qed.

Lemma tick_counter_after_witness :
  ticks (Nat.iter 3 scheduler_tick (fiber_sleep_enqueue 12 (one_running 4294967286))) = 8.
Proof.
  rewrite (tick_counter_after 3 (fiber_sleep_enqueue 12 (one_running 4294967286))).
  - reflexivity.
  - vm_compute. split; [discriminate|reflexivity].
Defined.

(** X12 (ticks, "When stored as an unsigned long, this gives us approx
    50 days between rollover", with ticks of FIBER_TICK_PERIOD_MS): counted from zero,
    the counter is the exact number of milliseconds for as long as that
    number is below 2^32, which covers 49 days; the tick that passes 2^32
    is tick number 715827883, before the end of day 50, and leaves the
    counter at 2. *)
Theorem tick_counter_rollover (n : nat) (s : scheduler) :
  ticks s = 0 ->
  let elapsed := FIBER_TICK_PERIOD_MS * Z.of_nat n in
  let day := 24 * 60 * 60 * 1000 in
  (elapsed < 2 ^ 32 -> ticks (Nat.iter n scheduler_tick s) = elapsed) /\
  (elapsed <= 49 * day -> ticks (Nat.iter n scheduler_tick s) = elapsed) /\
  (Z.of_nat n = 715827883 ->
   ticks (Nat.iter n scheduler_tick s) = 2 /\ elapsed < 50 * day).
Proof.
  intros Hs. cbv zeta.
  rewrite (ticks_iter n s) by (rewrite Hs; lia). rewrite Hs, Z.add_0_l.
  unfold FIBER_TICK_PERIOD_MS.
  split; [|split].
  - intros Hlt. apply wrap32_small. lia.
  - intros Hlt. apply wrap32_small. lia.
  - intros ->. split; [reflexivity|lia].
Qed.

Lemma tick_counter_rollover_witness :
  ticks (Nat.iter 4 scheduler_tick (fiber_sleep_enqueue 12 (one_running 0))) = 24.
Proof.
  destruct (tick_counter_rollover 4 (fiber_sleep_enqueue 12 (one_running 0)) eq_refl)
    as (H & _).
  cbv zeta in H. rewrite H; [reflexivity|]. vm_compute. reflexivity.
Defined.

(** X13 (fiber_sleep, fiber_wait_for_event, "The calling thread will be
    immediatley descheduled, and placed onto a wait queue"): up to its call of the scheduler, a blocking call
    takes the current fiber off the queue it is on and puts it at the head
    of the sleep queue, or of the wait queue; every queue keeps its other
    members in their order; the queues stay well formed; and the context
    word of the fiber holds the wake time, or the registration. *)
Theorem blocking_call_requeues_current (s : scheduler) (c : fiber_ptr) (t id v : Z) :
  queue_inv s -> currentFiber s = Some c -> is_Some (fibers s !! c) ->
  (queue_inv (fiber_sleep_enqueue t s) /\
   (forall q, queue_members (fiber_sleep_enqueue t s) q
              = (if decide (q = SleepQueue) then [c] else [])
                ++ filter (fun x => x <> c) (queue_members s q)) /\
   context_of (fiber_sleep_enqueue t s) c = Some (Word.wrap32 (ticks s + t))) /\
  (queue_inv (fiber_wait_enqueue id v s) /\
   (forall q, queue_members (fiber_wait_enqueue id v s) q
              = (if decide (q = WaitQueue) then [c] else [])
                ++ filter (fun x => x <> c) (queue_members s q)) /\
   registration (fiber_wait_enqueue id v s) c = Some (wrap16 id, wrap16 v)).
Proof.
  intros Hinv Hcur Hc. unfold fiber_sleep_enqueue, fiber_wait_enqueue, registration.
  rewrite Hcur. cbv zeta.
  assert (forall q k,
    context_of (queue_fiber c q (dequeue_fiber c (update c (set_context k) s))) c
    = Some k) as Hctx.
  { intros q k.
    rewrite (same_data_context _ _ c
               (same_data_trans _ _ _ (dequeue_fiber_same_data _ c)
                  (queue_fiber_same_data _ c q))).
    unfold context_of. rewrite fibers_update, lookup_alter_eq.
    destruct Hc as [cb ->]. reflexivity. }
  split.
  - destruct (block_enqueue_members s c SleepQueue (Word.wrap32 (ticks s + t)) Hinv Hc)
      as [H1 H2].
    split; [exact H1|]. split; [exact H2|apply Hctx].
  - destruct (block_enqueue_members s c WaitQueue (event_key id v) Hinv Hc)
      as [H1 H2].
    split; [exact H1|]. split; [exact H2|]. rewrite Hctx. simpl.
    by rewrite key_id_event_key, key_value_event_key.
Qed.

Lemma blocking_call_requeues_current_witness :
  queue_members (queue_fiber 2 RunQueue (one_running 0)) RunQueue = [2; 1]%nat /\
  queue_members (fiber_sleep_enqueue 12 (queue_fiber 2 RunQueue (one_running 0)))
    RunQueue = [2%nat] /\
  queue_members (fiber_sleep_enqueue 12 (queue_fiber 2 RunQueue (one_running 0)))
    SleepQueue = [1%nat] /\
  registration (fiber_wait_enqueue 7 3 (queue_fiber 2 RunQueue (one_running 0))) 1%nat
  = Some (7, 3).
Proof.
  assert (queue_inv (queue_fiber 2 RunQueue (one_running 0))) as Hinv.
  { apply queue_fiber_inv; [apply one_running_inv|].
    eexists. split; [vm_compute; reflexivity|reflexivity]. }
  destruct (blocking_call_requeues_current _ 1%nat 12 7 3 Hinv eq_refl
              ltac:(eexists; vm_compute; reflexivity))
    as ((_ & Hs & _) & (_ & _ & Hw)).
  split; [reflexivity|]. rewrite !Hs. split; [reflexivity|]. split; [reflexivity|].
  exact Hw.
Defined.

(** ** Creating fibers and yielding *)

Section CreateFacts.
Context {P : Platform}.

Lemma spawn_frame regs (s : scheduler) (m : machine) :
  queue_inv s ->
  let f := fst (spawn regs (s, m)) in
  let s' := fst (snd (spawn regs (s, m))) in
  (f ∉ dom (fibers s)) /\
  dom (fibers s') = {[ f ]} ∪ dom (fibers s) /\
  (forall x, x <> f -> fiber_data <$> fibers s' !! x = fiber_data <$> fibers s !! x) /\
  queue_members s' RunQueue = f :: queue_members s RunQueue /\
  queue_members s' SleepQueue = queue_members s SleepQueue /\
  queue_members s' WaitQueue = queue_members s WaitQueue /\
  currentFiber s' = currentFiber s /\ ticks s' = ticks s /\
  exists fb, fibers s' !! f = Some fb /\ tcb fb = regs /\ flags fb = 0 /\
             buffer_size fb = FIBER_STACK_SIZE.
Proof.
  intros Hinv.
  destruct (spawn_data regs s m) as [Hdom Hdata].
  destruct (spawn_on regs s m Hinv) as (Hfresh & _ & Hc & Ht & _ & _ & _ & Hfb).
  pose proof (spawn_members regs s m Hinv) as Hm.
  cbv zeta in *.
  split; [by apply not_elem_of_dom|]. split; [exact Hdom|]. split; [exact Hdata|].
  rewrite !Hm. repeat split; try assumption.
Qed.

End CreateFacts.

(** X14 (create_fiber, both overloads, "Creates a new Fiber, and
    launches it", "@return The new Fiber"): the fiber returned is none of the
    fibers that existed; the set of fibers grows by exactly that one; the
    stack, register context, context word and flags of every other fiber
    are untouched; the new fiber is the first member of the run queue,
    ahead of the earlier members in their order, and the sleep and wait
    queues are as they were; the current fiber and the counter do not
    change; the new fiber has no flag set and a stack buffer of
    FIBER_STACK_SIZE bytes. *)
Theorem create_fiber_adds_one_fiber {P : Platform} (entry_fn param : Z)
    (completion_fn : option Z) (s : scheduler) (m : machine) :
  queue_inv s ->
  forall r, r = create_fiber entry_fn completion_fn (s, m) \/
            r = create_fiber_param entry_fn param completion_fn (s, m) ->
    let f := fst r in
    let s' := fst (snd r) in
    (f ∉ dom (fibers s)) /\
    dom (fibers s') = {[ f ]} ∪ dom (fibers s) /\
    (forall x, x <> f -> fiber_data <$> fibers s' !! x = fiber_data <$> fibers s !! x) /\
    queue_members s' RunQueue = f :: queue_members s RunQueue /\
    queue_members s' SleepQueue = queue_members s SleepQueue /\
    queue_members s' WaitQueue = queue_members s WaitQueue /\
    currentFiber s' = currentFiber s /\ ticks s' = ticks s /\
    exists fb, fibers s' !! f = Some fb /\ flags fb = 0 /\
               buffer_size fb = FIBER_STACK_SIZE.
Proof.
  intros Hinv r [-> | ->]; unfold create_fiber, create_fiber_param.
  - destruct (spawn_frame (start_context (address_of fn_launch_new_fiber) entry_fn
                (default (address_of fn_release_fiber) completion_fn) 0) s m Hinv)
      as (H1 & H2 & H3 & H4 & H5 & H6 & H7 & H8 & fb & Hfb & _ & Hfl & Hsz).
    cbv zeta in *. repeat (split; [assumption|]). exists fb. auto.
  - destruct (spawn_frame (start_context (address_of fn_launch_new_fiber_param) entry_fn
                param (default (address_of fn_release_fiber_param) completion_fn)) s m Hinv)
      as (H1 & H2 & H3 & H4 & H5 & H6 & H7 & H8 & fb & Hfb & _ & Hfl & Hsz).
    cbv zeta in *. repeat (split; [assumption|]). exists fb. auto.
Qed.

Lemma create_fiber_adds_one_fiber_witness :
  let r := create_fiber (P := sim_platform) 0x400 None (one_running 0, sim_machine 64) in
  fst r = 3%nat /\
  queue_members (fst (snd r)) RunQueue = [3; 1]%nat /\
  queue_members (fst (snd r)) SleepQueue = [].
Proof.
  cbv zeta.
  destruct (create_fiber_adds_one_fiber (P := sim_platform) 0x400 0 None
              (one_running 0) (sim_machine 64) (one_running_inv 0) _ (or_introl eq_refl))
    as (_ & _ & _ & Hrun & Hsleep & _).
  cbv zeta in Hrun, Hsleep.
  split; [vm_compute; reflexivity|].
  rewrite Hrun, Hsleep. split; vm_compute; reflexivity.
Defined.

Section YieldFacts.
Context {P : Platform}.
Variable grow : Z -> Z -> Z.

Lemma set_current_members c (s : scheduler) q :
  queue_members (set_current c s) q = queue_members s q.
Proof. destruct q; reflexivity. Qed.

Lemma verify_stack_size_members (f : fiber_ptr) (s : scheduler) (m : machine) q :
  queue_members (fst (verify_stack_size grow f (s, m))) q = queue_members s q.
Proof.
  unfold verify_stack_size. cbn [fst snd].
  destruct (fibers s !! f) as [fb|]; [|reflexivity].
  destruct (_ <? _); [|reflexivity].
  destruct (malloc _ _) as [bottom m2]. cbn [fst].
  apply update_queue_members. intros; reflexivity.
Qed.

Lemma switch_to_members (next : fiber_ptr) (s : scheduler) (m : machine) q :
  queue_members (fst (snd (switch_to grow next (s, m)))) q = queue_members s q.
Proof.
  unfold switch_to. cbn [fst snd].
  destruct (currentFiber s) as [cur|]; [|reflexivity].
  destruct (decide (cur = next)); [reflexivity|].
  destruct (fibers (fst (verify_stack_size grow next (s, m))) !! cur); [|reflexivity].
  destruct (fibers (fst (verify_stack_size grow next (s, m))) !! next); [|reflexivity].
  destruct (swap_context _ _ _ _ _) as [saved m2]. cbn [fst snd].
  rewrite set_current_members, update_queue_members by (intros; reflexivity).
  apply verify_stack_size_members.
Qed.

End YieldFacts.


